(** * dns-sim client: resource-record cache, TTL decay and query correlation

    A shallow embedding of [client.py]: the [RRTable] cache with its
    background decay thread, the [DNSTypes] registry and [handle_request].
    Python objects are mutable and the cache is shared between the
    foreground thread and the decay thread, so the methods are written in a
    state-and-exception monad over a [world] that holds the table, what was
    printed or sent, and how many decay iterations slip in each time the
    foreground thread waits for the lock. *)

From Stdlib Require Import ZArith Lia Floats.SpecFloat.
From stdpp Require Import gmap strings list.

#[local] Set Warnings "-register-all".
#[local] Open Scope Z_scope.

(** ** Python values and exceptions *)

(** What [json.loads] can produce, and what the cache stores in the
    [name], [type] and [result] slots of a record.  A float is kept as its
    exact sign, mantissa and exponent. *)
Inductive pyval : Type :=
  | PNone
  | PBool (b : bool)
  | PInt (z : Z)
  | PFloat (f : spec_float)
  | PStr (s : string)
  | PList (l : list pyval)
  | PDict (d : gmap string pyval).

Inductive exn : Type :=
  | KeyboardInterrupt
  | SystemExit
  | SocketTimeout
  | UnicodeDecodeError
  | OSError
  | JSONDecodeError
  | RecursionError
  | AttributeError
  | TypeError
  | ValueError
  | OverflowError.

(** [except Exception] catches everything but the two [BaseException]s. *)
Definition is_Exception (e : exn) : bool :=
  match e with
  | KeyboardInterrupt | SystemExit => false
  | _ => true
  end.

Inductive outcome (A : Type) : Type :=
  | Returned (a : A)
  | Raised (e : exn).
Arguments Returned {A} a.
Arguments Raised {A} e.

#[global] Instance outcome_ret : MRet outcome := fun A a => Returned a.
#[global] Instance outcome_bind : MBind outcome := fun A B f m =>
  match m with
  | Returned a => f a
  | Raised e => Raised e
  end.

(** The integer a float is exactly equal to, if any ([5.0 == 5]). *)
Definition float_exact_int (f : spec_float) : option Z :=
  match f with
  | S754_zero _ => Some 0
  | S754_finite s m e =>
      if 0 <=? e then Some ((if s then -1 else 1) * (Z.pos m * 2 ^ e))
      else if Z.pos m mod 2 ^ (- e) =? 0
           then Some ((if s then -1 else 1) * (Z.pos m / 2 ^ (- e)))
           else None
  | S754_infinity _ | S754_nan => None
  end.

(** [int(f)]: truncation towards zero; NaN and the infinities raise. *)
Definition float_trunc (f : spec_float) : outcome Z :=
  match f with
  | S754_zero _ => Returned 0
  | S754_finite s m e =>
      Returned ((if s then -1 else 1) *
                (if 0 <=? e then Z.pos m * 2 ^ e else Z.pos m / 2 ^ (- e)))
  | S754_infinity _ => Raised OverflowError
  | S754_nan => Raised ValueError
  end.

(** [v == n] for an int [n]. *)
Definition py_eq_int (v : pyval) (n : Z) : bool :=
  match v with
  | PInt z => z =? n
  | PBool b => (if b then 1 else 0) =? n
  | PFloat f => match float_exact_int f with
                | Some z => z =? n
                | None => false
                end
  | _ => false
  end.

(** [v == s] for a str [s]. *)
Definition py_eq_str (v : pyval) (s : string) : bool :=
  match v with
  | PStr s' => String.eqb s' s
  | _ => false
  end.

Definition isinstance_dict (v : pyval) : bool :=
  match v with
  | PDict _ => true
  | _ => false
  end.

(** [d.get(key)] on a dict: [None] when the key is missing. *)
Definition dict_get (d : gmap string pyval) (key : string) : pyval :=
  default PNone (d !! key).

(** [obj.get(key, dflt)]: only a dict has the method. *)
Definition method_get (obj : pyval) (key : string) (dflt : pyval) : outcome pyval :=
  match obj with
  | PDict d => Returned (default dflt (d !! key))
  | _ => Raised AttributeError
  end.

(** An optional int slot ([rec["ttl"]]): [None] is Python's [None], and
    ordering or arithmetic on it raises [TypeError]. *)
Definition is_not_None (v : option Z) : bool :=
  match v with
  | Some _ => true
  | None => false
  end.

Definition py_gt (v : option Z) (n : Z) : outcome bool :=
  match v with
  | Some z => Returned (n <? z)
  | None => Raised TypeError
  end.

Definition py_le (v : option Z) (n : Z) : outcome bool :=
  match v with
  | Some z => Returned (z <=? n)
  | None => Raised TypeError
  end.

Definition py_sub (v : option Z) (n : Z) : outcome (option Z) :=
  match v with
  | Some z => Returned (Some (z - n))
  | None => Raised TypeError
  end.

(** Short-circuit [a and b], [a or b] with a left operand that cannot raise. *)
Definition py_and (a : bool) (b : outcome bool) : outcome bool :=
  if a then b else Returned false.

Definition py_or (a : bool) (b : outcome bool) : outcome bool :=
  if a then Returned true else b.

(** ** Constants *)

Definition LOCAL_DNS_ADDR : string * Z := ("127.0.0.1"%string, 21000).
Definition QUERY_FLAG : string := "0000".
Definition RESP_FLAG : string := "0001".
Definition NOT_FOUND : string := "Record not found".

(** ** The cache and the world it lives in *)

(** One cached record: the dict built by [add_record], key by key. *)
Record rrecord : Type := Rec {
  record_number : Z;
  name : pyval;
  type : pyval;
  result : pyval;
  ttl : option Z;
  static : Z
}.

Definition set_ttl (v : option Z) (r : rrecord) : rrecord :=
  Rec (record_number r) (name r) (type r) (result r) v (static r).

Definition set_record_number (i : Z) (r : rrecord) : rrecord :=
  Rec i (name r) (type r) (result r) (ttl r) (static r).

Module RRTable.
(** [self.records] and [self.record_number]. *)
Record t : Type := Make {
  records : list rrecord;
  record_number : Z
}.

(** [RRTable.__init__]. *)
Definition init : t := Make [] 0.
End RRTable.

(** What the process does to the outside: a printed line, a printed table
    row, a datagram sent, and the socket closed by [receive_message]. *)
Inductive event : Type :=
  | Printed (line : string)
  | PrintedRow (r : rrecord)
  | SentTo (payload : string) (addr : string * Z)
  | SocketClosed.

(** [sched] lists, for each coming acquisition of the lock by the
    foreground thread, how many iterations of the decay thread ran since
    the lock was last released. *)
Record world : Type := World {
  table : RRTable.t;
  log : list event;
  sched : list nat
}.

Definition M (A : Type) : Type := world → outcome A * world.

#[global] Instance M_ret : MRet M := fun A a w => (Returned a, w).
#[global] Instance M_bind : MBind M := fun A B f m w =>
  match m w with
  | (Returned a, w') => f a w'
  | (Raised e, w') => (Raised e, w')
  end.

Definition lift {A} (o : outcome A) : M A := fun w => (o, w).
Definition raise {A} (e : exn) : M A := fun w => (Raised e, w).

(** [try: m except ex: handler ex]. *)
Definition try_except {A} (m : M A) (handler : exn → M A) : M A := fun w =>
  match m w with
  | (Returned a, w') => (Returned a, w')
  | (Raised e, w') => handler e w'
  end.

Definition get_table : M RRTable.t := fun w => (Returned (table w), w).

Definition put_table (self : RRTable.t) : M unit := fun w =>
  (Returned tt, World self (log w) (sched w)).

Definition emit (e : event) : M unit := fun w =>
  (Returned tt, World (table w) (log w ++ [e]) (sched w)).

Definition print (line : string) : M unit := emit (Printed line).

(** [self.records = l] *)
Definition set_records (l : list rrecord) : M unit :=
  self ← get_table;
  put_table (RRTable.Make l (RRTable.record_number self)).

(** [self.record_number = n] *)
Definition set_counter (n : Z) : M unit :=
  self ← get_table;
  put_table (RRTable.Make (RRTable.records self) n).

(** In-place update of the dict stored at position [i] of [self.records]. *)
Definition update_record (i : nat) (f : rrecord → rrecord) : M unit :=
  self ← get_table;
  put_table (RRTable.Make (alter f i (RRTable.records self)) (RRTable.record_number self)).

(** ** The decay thread *)

(** The [for rec in self.records] loop of [__decrement_ttl]: [rec] is the
    dict at position [i]. *)
Fixpoint decrement_loop (todo : list rrecord) (i : nat) : M unit :=
  match todo with
  | [] => mret tt
  | rec :: todo' =>
      c ← lift (py_and (static rec =? 0)
                 (py_and (is_not_None (ttl rec)) (py_gt (ttl rec) 0)));
      _ ← (if c : bool
           then v ← lift (py_sub (ttl rec) 1); update_record i (set_ttl v)
           else mret tt);
      decrement_loop todo' (S i)
  end.

(** The first loop of [__remove_expired_records], building [kept]. *)
Fixpoint kept_loop (todo kept : list rrecord) : M (list rrecord) :=
  match todo with
  | [] => mret kept
  | rec :: todo' =>
      c ← lift (py_and (static rec =? 0)
                 (py_and (is_not_None (ttl rec)) (py_le (ttl rec) 0)));
      if c : bool then kept_loop todo' kept
      else kept_loop todo' (kept ++ [rec])
  end.

(** [for i, rec in enumerate(self.records): rec["record_number"] = i] *)
Fixpoint renumber_loop (todo : list rrecord) (i : nat) : M unit :=
  match todo with
  | [] => mret tt
  | _ :: todo' =>
      _ ← update_record i (set_record_number (Z.of_nat i));
      renumber_loop todo' (S i)
  end.

Definition __remove_expired_records : M unit :=
  self ← get_table;
  kept ← kept_loop (RRTable.records self) [];
  _ ← set_records kept;
  self ← get_table;
  _ ← renumber_loop (RRTable.records self) 0;
  self ← get_table;
  set_counter (Z.of_nat (length (RRTable.records self))).

(** One iteration of [__decrement_ttl]: the body run under the lock. *)
Definition decay_tick : M unit :=
  self ← get_table;
  _ ← decrement_loop (RRTable.records self) 0;
  __remove_expired_records.

(** [n] iterations of the [while True] loop of [__decrement_ttl].  An
    exception would end the daemon thread for good: nothing is scheduled
    after it. *)
Fixpoint __decrement_ttl (n : nat) (w : world) : world :=
  match n with
  | O => w
  | S k =>
      match decay_tick w with
      | (Returned _, w') => __decrement_ttl k w'
      | (Raised _, w') => World (table w') (log w') []
      end
  end.

(** [with self.lock:] in the foreground thread.  The decay thread may have
    held the lock any number of times before it is granted. *)
Definition acquire : M unit := fun w =>
  (Returned tt,
   __decrement_ttl (hd O (sched w)) (World (table w) (log w) (tl (sched w)))).

Definition with_lock {A} (body : M A) : M A :=
  _ ← acquire; body.

(** ** RRTable methods *)

Definition add_record (name rtype result : pyval) (ttl static : Z) : M unit :=
  with_lock (
    self ← get_table;
    _ ← set_records (RRTable.records self ++
           [ {| record_number := RRTable.record_number self;
                name := name;
                type := rtype;
                result := result;
                ttl := if static =? 0 then Some ttl else None;
                static := static |} ]);
    self ← get_table;
    set_counter (RRTable.record_number self + 1)).

(** [rec["name"] == n and rec["type"] == t] *)
Definition key_matches (rec : rrecord) (n t : string) : bool :=
  py_eq_str (name rec) n && py_eq_str (type rec) t.

(** The scan of [get_record]; [return rec] leaves the loop at once. *)
Fixpoint get_record_loop (todo : list rrecord) (name rtype : string)
  : outcome (option rrecord) :=
  match todo with
  | [] => Returned None
  | rec :: todo' =>
      if key_matches rec name rtype
      then
        ok ← py_or (static rec =? 1)
               (py_and (is_not_None (ttl rec)) (py_gt (ttl rec) 0));
        if ok : bool then Returned (Some rec)
        else get_record_loop todo' name rtype
      else get_record_loop todo' name rtype
  end.

Definition get_record (name rtype : string) : M (option rrecord) :=
  with_lock (
    self ← get_table;
    lift (get_record_loop (RRTable.records self) name rtype)).

(** One printed line per record, in storage order. *)
Fixpoint print_rows (todo : list rrecord) : M unit :=
  match todo with
  | [] => mret tt
  | rec :: todo' => _ ← emit (PrintedRow rec); print_rows todo'
  end.

Definition display_table : M unit :=
  with_lock (
    _ ← print "record_no,name,type,result,ttl,static";
    self ← get_table;
    print_rows (RRTable.records self)).

(** ** DNSTypes *)

Module DNSTypes.
(** The dict literal, in insertion order. *)
Definition name_to_code_items : list (string * Z) :=
  [ ("A"%string, 8); ("AAAA"%string, 4); ("CNAME"%string, 2); ("NS"%string, 1) ].

Definition name_to_code : gmap string Z :=
  foldl (fun d item => <[ item.1 := item.2 ]> d) ∅ name_to_code_items.

(** [{code: name for name, code in name_to_code.items()}] *)
Definition code_to_name : gmap Z string :=
  foldl (fun d item => <[ item.2 := item.1 ]> d) ∅ name_to_code_items.

Definition get_type_code (type_name : string) : option Z :=
  name_to_code !! type_name.

Definition get_type_name (type_code : Z) : option string :=
  code_to_name !! type_code.
End DNSTypes.

(** ** The transport and one resolution attempt *)

(** What the [try] block of [UDPConnection.receive_message] ends in: the
    decoded datagram and its sender, or an exception, with its [errno] and
    text for the case that it is an [OSError]. *)
Inductive recv_event : Type :=
  | Received (data : string) (address : string * Z)
  | Raises (ex : exn) (errno : Z) (text : string).

(** What the outside world does during one call of [handle_request]. *)
Record env : Type := Env {
  time_ms : Z;                  (* int(time.time() * 1000) *)
  send_outcome : outcome unit;  (* socket.sendto *)
  recv : recv_event;            (* socket.recvfrom and bytes.decode *)
  ECONNRESET : Z                (* errno.ECONNRESET *)
}.

Definition send_message (e : env) (message : string) (address : string * Z) : M unit :=
  match send_outcome e with
  | Returned _ => emit (SentTo message address)
  | Raised ex => raise ex
  end.

(** [UDPConnection.receive_message]: a timeout is passed on; any other
    [OSError] is reported, the socket is closed and the process exits; a
    [KeyboardInterrupt] is passed on, and so is what no clause catches. *)
Definition receive_message (e : env) : M (string * (string * Z)) :=
  match recv e with
  | Received data address => mret (data, address)
  | Raises ex errno text =>
      match ex with
      | SocketTimeout => raise ex
      | OSError =>
          _ ← (if errno =? ECONNRESET e
               then print "Error: Unable to reach the other socket. It might not be up and running."
               else print ("Socket error: " ++ text));
          _ ← emit SocketClosed;
          raise SystemExit
      | KeyboardInterrupt => raise ex
      | _ => raise ex
      end
  end.

(** What [udp.receive_message()] returns or raises. *)
Definition recv_outcome (e : env) : outcome (string * (string * Z)) :=
  match recv e with
  | Received data address => Returned (data, address)
  | Raises OSError _ _ => Raised SystemExit
  | Raises ex _ _ => Raised ex
  end.

(** The query dict built by [handle_request]. *)
Definition query_packet (tx_id : Z) (hostname qtype_name : string) : pyval :=
  PDict {[ "id"%string := PInt tx_id;
           "flag"%string := PStr QUERY_FLAG;
           "question"%string := PDict {[ "name"%string := PStr hostname;
                                         "type"%string := PStr qtype_name ]} ]}.

Section Client.
(** [json.dumps], [json.loads] and [int] on a string are the library's. *)
Variable json_dumps : pyval → string.
Variable json_loads : string → outcome pyval.
Variable int_of_str : string → outcome Z.

Definition serialize (obj : pyval) : string := json_dumps obj.
Definition deserialize (s : string) : outcome pyval := json_loads s.

(** [int(v)] *)
Definition py_int (v : pyval) : outcome Z :=
  match v with
  | PInt z => Returned z
  | PBool b => Returned (if b then 1 else 0)
  | PFloat f => float_trunc f
  | PStr s => int_of_str s
  | PNone | PList _ | PDict _ => Raised TypeError
  end.

Definition handle_request (e : env) (hostname qtype_name : string) : M unit :=
  hit ← get_record hostname qtype_name;
  match hit with
  | Some _ => display_table
  | None =>
      let tx_id := Z.land (time_ms e) 0xFFFFFFFF in
      let packet := query_packet tx_id hostname qtype_name in
      _ ← send_message e (serialize packet) LOCAL_DNS_ADDR;
      received ← try_except
        (got ← receive_message e; mret (Some got.1))
        (fun ex =>
           match ex with
           | KeyboardInterrupt => raise ex
           | _ =>
               if is_Exception ex
               then _ ← print "No response from Local DNS (timeout or socket error)";
                    mret None
               else raise ex
           end);
      match received with
      | None => mret tt
      | Some data =>
          resp ← lift (deserialize data);
          match resp with  (* isinstance(resp, dict) *)
          | PDict d =>
              if negb (py_eq_int (dict_get d "id") tx_id)
                 || negb (py_eq_str (dict_get d "flag") RESP_FLAG)
              then print "mismatched response; ignoring."
              else
                let ans := default (PDict ∅) (d !! "answer"%string) in
                result ← lift (method_get ans "result" (PStr NOT_FOUND));
                _ ← (if negb (py_eq_str result NOT_FOUND)
                     then
                       v ← lift (method_get ans "ttl" (PInt 60));
                       ttl ← lift (py_int v);
                       nm ← lift (method_get ans "name" (PStr hostname));
                       ty ← lift (method_get ans "type" (PStr qtype_name));
                       add_record nm ty result ttl 0
                     else mret tt);
                display_table
          | _ => print "mismatched response; ignoring."
          end
      end
  end.
End Client.

(** ** The operations as the specification words them *)

(** Valid for lookup: static, or a present ttl greater than 0. *)
Definition valid_for_lookup (r : rrecord) : bool :=
  (static r =? 1) || match ttl r with
                     | Some t => 0 <? t
                     | None => false
                     end.

(** First record in storage order with a matching key that is valid. *)
Definition spec_lookup (recs : list rrecord) (n t : string) : option rrecord :=
  List.find (fun r => key_matches r n t && valid_for_lookup r) recs.

(** Step one of a tick, on one record. *)
Definition spec_decrement (r : rrecord) : rrecord :=
  match ttl r with
  | Some t => if (static r =? 0) && (0 <? t) then set_ttl (Some (t - 1)) r else r
  | None => r
  end.

(** Step two of a tick: the records that are removed. *)
Definition spec_expired (r : rrecord) : bool :=
  match ttl r with
  | Some t => (static r =? 0) && (t <=? 0)
  | None => false
  end.

(** Step three of a tick: dense 0-based numbers, order kept. *)
Definition renumber (l : list rrecord) : list rrecord :=
  imap (fun i => set_record_number (Z.of_nat i)) l.

Definition spec_tick (self : RRTable.t) : RRTable.t :=
  let survivors :=
    List.filter (fun r => negb (spec_expired r))
                (map spec_decrement (RRTable.records self)) in
  RRTable.Make (renumber survivors) (Z.of_nat (length survivors)).

(** What [n] ticks leave of one record, its number apart: a dynamic record
    with ttl [t] is still there with [t - n] while [n < t], and gone after. *)
Definition after_ticks (n : nat) (r : rrecord) : option rrecord :=
  match ttl r with
  | Some t =>
      if static r =? 0
      then if Z.of_nat n <? t then Some (set_ttl (Some (t - Z.of_nat n)) r) else None
      else Some r
  | None => Some r
  end.

(** Record numbers are the positions and the counter is the length. *)
Definition dense (self : RRTable.t) : Prop :=
  (∀ (i : nat) (r : rrecord),
      RRTable.records self !! i = Some r → record_number r = Z.of_nat i)
  ∧ RRTable.record_number self = Z.of_nat (length (RRTable.records self)).

(** The public operations and the tick, as one step each. *)
Inductive op : Type :=
  | OpAdd (name rtype result : pyval) (ttl static : Z)
  | OpGet (name rtype : string)
  | OpDisplay
  | OpTick.

Definition run_op (o : op) : M unit :=
  match o with
  | OpAdd n t r ttl st => add_record n t r ttl st
  | OpGet n t => _ ← get_record n t; mret tt
  | OpDisplay => display_table
  | OpTick => decay_tick
  end.

Fixpoint run_ops (ops : list op) (w : world) : world :=
  match ops with
  | [] => w
  | o :: ops' => run_ops ops' (run_op o w).2
  end.

(** The lines [display_table] prints for a list of records. *)
Definition table_lines (recs : list rrecord) : list event :=
  Printed "record_no,name,type,result,ttl,static" :: map PrintedRow recs.

(** The table as the decay thread leaves it after [n] iterations. *)
Definition decayed (n : nat) (self : RRTable.t) : RRTable.t :=
  Nat.iter n spec_tick self.

(** Insert as the specification words it: one record appended, numbered by
    the counter, and the counter advanced. *)
Definition inserted (self : RRTable.t) (n t r : pyval) (ttl static : Z) : RRTable.t :=
  RRTable.Make
    (RRTable.records self ++
       [Rec (RRTable.record_number self) n t r
            (if static =? 0 then Some ttl else None) static])
    (RRTable.record_number self + 1).

(** ** Sample data *)

Definition rec_dynamic (n t : Z) : rrecord :=
  Rec n (PStr "a.com") (PStr "A") (PStr "1.2.3.4") (Some t) 0.

Definition rec_static (n : Z) : rrecord :=
  Rec n (PStr "b.com") (PStr "NS") (PStr "ns1.b.com") None 1.

(** A dynamic record without a ttl. *)
Definition rec_malformed (n : Z) : rrecord :=
  Rec n (PStr "m.com") (PStr "A") (PStr "9.9.9.9") None 0.

Definition sample_table : RRTable.t :=
  RRTable.Make [rec_dynamic 0 1; rec_static 1; rec_malformed 2; rec_dynamic 3 5] 4.

Definition sample_world : world := World sample_table [] [].

(** The world once the lookup of an attempt has been served ... *)
Definition looked_up (w : world) : world :=
  World (decayed (hd O (sched w)) (table w)) (log w) (tl (sched w)).

(** ... once the query has left ... *)
Definition queried (payload : string) (w : world) : world :=
  World (decayed (hd O (sched w)) (table w))
        (log w ++ [SentTo payload LOCAL_DNS_ADDR])
        (tl (sched w)).

(** ... and with one more line printed. *)
Definition said (line : string) (w : world) : world :=
  World (table w) (log w ++ [Printed line]) (sched w).

(** What [receive_message] logs before it raises: nothing, unless the
    receive failed with an [OSError] that is no timeout. *)
Definition recv_notice (e : env) : list event :=
  match recv e with
  | Raises OSError errno text =>
      [Printed (if errno =? ECONNRESET e
                then "Error: Unable to reach the other socket. It might not be up and running."
                else "Socket error: " ++ text);
       SocketClosed]
  | _ => []
  end.

Definition notified (e : env) (w : world) : world :=
  World (table w) (log w ++ recv_notice e) (sched w).

(** The attempt ends by presenting the cache snapshot. *)
Definition ends_with_snapshot (w : world) : Prop :=
  ∃ before : list event,
    log w = before ++ table_lines (RRTable.records (table w)).

(** ** How an attempt that missed the cache can end *)

Section Replies.
Variable json_loads : string → outcome pyval.
Variable int_of_str : string → outcome Z.

(** The attempt is given up with one printed line: the receive raised an
    [Exception], or the reply is not a dict, or its id or its flag is not
    the expected one. *)
Inductive dismissed (e : env) : string → Prop :=
  | No_response (ex : exn) :
      recv_outcome e = Raised ex → is_Exception ex = true →
      dismissed e "No response from Local DNS (timeout or socket error)"
  | Not_a_dict (data : string) (addr : string * Z) (v : pyval) :
      recv_outcome e = Returned (data, addr) →
      json_loads data = Returned v → isinstance_dict v = false →
      dismissed e "mismatched response; ignoring."
  | Id_differs (data : string) (addr : string * Z) (d : gmap string pyval) :
      recv_outcome e = Returned (data, addr) →
      json_loads data = Returned (PDict d) →
      py_eq_int (dict_get d "id") (Z.land (time_ms e) 0xFFFFFFFF) = false →
      dismissed e "mismatched response; ignoring."
  | Wrong_flag (data : string) (addr : string * Z) (d : gmap string pyval) :
      recv_outcome e = Returned (data, addr) →
      json_loads data = Returned (PDict d) →
      py_eq_str (dict_get d "flag") RESP_FLAG = false →
      dismissed e "mismatched response; ignoring.".

(** No usable reply: dismissed as above, or the receive or the decoding
    raised. *)
Inductive unanswered (e : env) : Prop :=
  | Dismissed (line : string) : dismissed e line → unanswered e
  | Recv_raises (ex : exn) : recv_outcome e = Raised ex → unanswered e
  | Decode_raises (data : string) (addr : string * Z) (ex : exn) :
      recv_outcome e = Returned (data, addr) →
      json_loads data = Raised ex → unanswered e.

(** A reply with the id just sent and the response flag, whose answer
    (an empty dict when the key is missing) is the dict [ans]. *)
Definition correlated (e : env) (ans : gmap string pyval) : Prop :=
  ∃ (data : string) (addr : string * Z) (d : gmap string pyval),
    recv_outcome e = Returned (data, addr)
    ∧ json_loads data = Returned (PDict d)
    ∧ py_eq_int (dict_get d "id") (Z.land (time_ms e) 0xFFFFFFFF) = true
    ∧ py_eq_str (dict_get d "flag") RESP_FLAG = true
    ∧ default (PDict ∅) (d !! "answer"%string) = PDict ans.

(** [int(ans.get("ttl", 60))] *)
Definition ttl_of (ans : gmap string pyval) : outcome Z :=
  py_int int_of_str (default (PInt 60) (ans !! "ttl"%string)).
End Replies.

(** [ans.get("result", NOT_FOUND)] and the other fields of an answer. *)
Definition result_of (ans : gmap string pyval) : pyval :=
  default (PStr NOT_FOUND) (ans !! "result"%string).

Definition name_of (ans : gmap string pyval) (hostname : string) : pyval :=
  default (PStr hostname) (ans !! "name"%string).

Definition type_of (ans : gmap string pyval) (qtype_name : string) : pyval :=
  default (PStr qtype_name) (ans !! "type"%string).

(** ** Sample collaborators, transport and replies *)

Definition canned_dumps : pyval → string := fun _ => "query"%string.
Definition canned_loads (v : pyval) : string → outcome pyval := fun _ => Returned v.
Definition broken_loads : string → outcome pyval := fun _ => Raised JSONDecodeError.
Definition no_int : string → outcome Z := fun _ => Raised ValueError.

Definition sample_time : Z := 1700000000123.

Definition env_timeout : env :=
  Env sample_time (Returned tt) (Raises SocketTimeout 0 "timed out") 104.

(** The peer's port is closed: the receive fails with ECONNRESET. *)
Definition env_reset : env :=
  Env sample_time (Returned tt) (Raises OSError 104 "Connection reset by peer") 104.

Definition env_reply : env :=
  Env sample_time (Returned tt) (Received "reply" LOCAL_DNS_ADDR) 104.

Definition answer_e : gmap string pyval :=
  {[ "name"%string := PStr "e.com"; "type"%string := PStr "A";
     "result"%string := PStr "5.6.7.8"; "ttl"%string := PInt 5 ]}.

(** An answer whose ttl is JSON's null. *)
Definition answer_null_ttl : gmap string pyval :=
  {[ "name"%string := PStr "e.com"; "type"%string := PStr "A";
     "result"%string := PStr "5.6.7.8"; "ttl"%string := PNone ]}.

Definition answer_not_found : gmap string pyval :=
  {[ "name"%string := PStr "d.com"; "type"%string := PStr "A";
     "result"%string := PStr NOT_FOUND ]}.

Definition reply_with (id : Z) (answer : gmap string pyval) : gmap string pyval :=
  {[ "id"%string := PInt id; "flag"%string := PStr RESP_FLAG;
     "answer"%string := PDict answer ]}.

Definition reply_without_answer (id : Z) : gmap string pyval :=
  {[ "id"%string := PInt id; "flag"%string := PStr RESP_FLAG ]}.

Definition sample_tx : Z := Z.land sample_time 0xFFFFFFFF.

(** ** Further definitions: record contents, the connection and [main] *)

(** A record without its number. *)
Definition fields (r : rrecord) : pyval * pyval * pyval * option Z * Z :=
  (name r, type r, result r, ttl r, static r).

(** A record without its number and its ttl. *)
Definition content (r : rrecord) : pyval * pyval * pyval * Z :=
  (name r, type r, result r, static r).

(** A record as [handle_request] creates them. *)
Definition dynamic (r : rrecord) : Prop := static r = 0 ∧ is_Some (ttl r).

Definition is_query (ev : event) : bool :=
  match ev with
  | SentTo _ _ => true
  | _ => false
  end.

Module UDPConnection.
(** The socket's timeout and whether it was closed, and [self.is_bound]. *)
Record t : Type := Make {
  timeout : Z;
  is_bound : bool;
  closed : bool
}.

(** [UDPConnection.__init__] *)
Definition init (timeout : Z) : t := Make timeout false false.
End UDPConnection.

(** The state [main] works on: the cache with the console, and the
    connection. *)
Record process : Type := Process {
  cache : world;
  udp : UDPConnection.t
}.

Definition P (A : Type) : Type := process → outcome A * process.

#[global] Instance P_ret : MRet P := fun A a p => (Returned a, p).
#[global] Instance P_bind : MBind P := fun A B f m p =>
  match m p with
  | (Returned a, p') => f a p'
  | (Raised e, p') => (Raised e, p')
  end.

Definition on_cache {A} (m : M A) : P A := fun p =>
  match m (cache p) with
  | (o, w') => (o, Process w' (udp p))
  end.

Definition from_env {A} (o : outcome A) : P A := fun p => (o, p).

Definition get_udp : P UDPConnection.t := fun p => (Returned (udp p), p).

Definition put_udp (self : UDPConnection.t) : P unit := fun p =>
  (Returned tt, Process (cache p) self).

(** [UDPConnection.close] *)
Definition close : P unit :=
  self ← get_udp;
  put_udp (UDPConnection.Make (UDPConnection.timeout self)
                              (UDPConnection.is_bound self) true).

(** What the socket does when [bind] reaches it, and the text of
    [getsockname()]. *)
Record bind_env : Type := BindEnv {
  bind_outcome : outcome unit;
  sockname_text : string
}.

(** [UDPConnection.bind] *)
Definition bind (e : bind_env) (address : string * Z) : P unit :=
  self ← get_udp;
  if UDPConnection.is_bound self
  then on_cache (print ("Socket is already bound to address: " ++ sockname_text e))
  else
    _ ← from_env (bind_outcome e);
    self ← get_udp;
    put_udp (UDPConnection.Make (UDPConnection.timeout self) true
                                (UDPConnection.closed self)).

(** What the keyboard gives to one [input()]. *)
Inductive keyboard : Type :=
  | Typed (line : string)
  | CtrlC.

(** One round of the loop of [main]: what is typed, and what the network
    does if a query goes out. *)
Record turn : Type := Turn {
  typed : keyboard;
  net : env
}.

(** How the loop of [main] is left. *)
Inductive loop_end : Type :=
  | Break
  | Escaped (e : exn)
  | EndOfInput.

(** How [main] ends: by returning, or with an exception ([EOFError] when
    the input runs out). *)
Inductive exit : Type :=
  | Exit_normally
  | Exit_raising (e : exn)
  | Exit_EOFError.

Definition PROMPT : string := "Enter the hostname (or 'quit' to exit) ".

Section Main.
Variable json_dumps : pyval → string.
Variable json_loads : string → outcome pyval.
Variable int_of_str : string → outcome Z.
(** [str.strip], [str.lower], [str.upper] and [str.split] are the library's. *)
Variable str_strip : string → string.
Variable str_lower : string → string.
Variable str_upper : string → string.
Variable str_split : string → list string.

(** The part of a round from the type check on. *)
Definition main_query (e : env) (hostname qtype_name : string) (w : world)
  : option loop_end * world :=
  match DNSTypes.get_type_code qtype_name with
  | None => (None, (print "Type must be one of: A, AAAA, CNAME, NS" w).2)
  | Some _ =>
      match handle_request json_dumps json_loads int_of_str e hostname qtype_name w with
      | (Returned _, w') => (None, w')
      | (Raised ex, w') => (Some (Escaped ex), w')
      end
  end.

(** One round of the [while True] loop; [None] goes on to the next round.
    The prompt of [input] is logged like a printed line. *)
Definition main_turn (t : turn) (w : world) : option loop_end * world :=
  let w := (print PROMPT w).2 in
  match typed t with
  | CtrlC => (Some (Escaped KeyboardInterrupt), w)
  | Typed line =>
      let input_value := str_strip line in
      if String.eqb (str_lower input_value) "quit" then (Some Break, w)
      else
        match str_split input_value with
        | [hostname] => main_query (net t) hostname "A" w
        | [hostname; qtype] => main_query (net t) hostname (str_upper qtype) w
        | _ => (None, (print "enter: <hostname> <type>" w).2)
        end
  end.

(** The loop over what is typed; at the end of the input [input] raises
    [EOFError] after its prompt. *)
Fixpoint main_loop (turns : list turn) (w : world) : loop_end * world :=
  match turns with
  | [] => (EndOfInput, (print PROMPT w).2)
  | t :: turns' =>
      match main_turn t w with
      | (Some stop, w') => (stop, w')
      | (None, w') => main_loop turns' w'
      end
  end.

(** [main], with the schedule of the decay thread of its table. *)
Definition main (sched : list nat) (turns : list turn) : exit * process :=
  let rr := World RRTable.init [] sched in
  let udp := UDPConnection.init 5 in
  match main_loop turns rr with
  | (Break, w) => (Exit_normally, (close (Process w udp)).2)
  | (Escaped KeyboardInterrupt, w) =>
      (Exit_normally,
       (close (Process (print "Keyboard interrupt, exiting..." w).2 udp)).2)
  | (Escaped ex, w) => (Exit_raising ex, (close (Process w udp)).2)
  | (EndOfInput, w) => (Exit_EOFError, (close (Process w udp)).2)
  end.
End Main.

(** ** Sample keyboard input *)

(** Words separated by single spaces, and ASCII letter case. *)
Fixpoint words_from (cur : string) (s : string) : list string :=
  match s with
  | EmptyString => if String.eqb cur "" then [] else [cur]
  | String c rest =>
      if Ascii.eqb c (Ascii.ascii_of_nat 32)
      then (if String.eqb cur "" then [] else [cur]) ++ words_from "" rest
      else words_from (cur ++ String c "") rest
  end.

Definition ascii_words (s : string) : list string := words_from "" s.

Definition ascii_upper_char (c : Ascii.ascii) : Ascii.ascii :=
  let n := Ascii.nat_of_ascii c in
  if ((97 <=? n) && (n <=? 122))%nat then Ascii.ascii_of_nat (n - 32) else c.

Definition ascii_lower_char (c : Ascii.ascii) : Ascii.ascii :=
  let n := Ascii.nat_of_ascii c in
  if ((65 <=? n) && (n <=? 90))%nat then Ascii.ascii_of_nat (n + 32) else c.

Fixpoint map_string (f : Ascii.ascii → Ascii.ascii) (s : string) : string :=
  match s with
  | EmptyString => EmptyString
  | String c rest => String (f c) (map_string f rest)
  end.

Definition ascii_upper : string → string := map_string ascii_upper_char.
Definition ascii_lower : string → string := map_string ascii_lower_char.
Definition no_strip : string → string := fun s => s.

Definition sample_main : list nat → list turn → exit * process :=
  main canned_dumps (canned_loads (PDict (reply_with sample_tx answer_e))) no_int
       no_strip ascii_lower ascii_upper ascii_words.

(** A reply that names another host than the one asked for. *)
Definition answer_alias : gmap string pyval :=
  {[ "name"%string := PStr "cdn.example"; "type"%string := PStr "A";
     "result"%string := PStr "7.7.7.7"; "ttl"%string := PInt 30 ]}.

Section Wire.
Variable json_dumps : pyval → string.

(** A logged event is harmless, or a query for a registered type sent to
    the local DNS server with a 32-bit id. *)
Definition asks_registered_type (ev : event) : Prop :=
  match ev with
  | SentTo payload addr =>
      addr = LOCAL_DNS_ADDR
      ∧ ∃ (tx_id : Z) (hostname qtype_name : string),
          payload = json_dumps (query_packet tx_id hostname qtype_name)
          ∧ is_Some (DNSTypes.get_type_code qtype_name)
          ∧ 0 ≤ tx_id < 2 ^ 32
  | _ => True
  end.
End Wire.

(** * Proofs *)

(** ** The guards never raise *)

Lemma decrement_guard (r : rrecord) :
  py_and (static r =? 0) (py_and (is_not_None (ttl r)) (py_gt (ttl r) 0))
  = Returned (match ttl r with
              | Some t => (static r =? 0) && (0 <? t)
              | None => false
              end).
Proof. destruct (ttl r), (static r =? 0); reflexivity. Qed.

Lemma expired_guard (r : rrecord) :
  py_and (static r =? 0) (py_and (is_not_None (ttl r)) (py_le (ttl r) 0))
  = Returned (spec_expired r).
Proof. unfold spec_expired. destruct (ttl r), (static r =? 0); reflexivity. Qed.

Lemma valid_guard (r : rrecord) :
  py_or (static r =? 1) (py_and (is_not_None (ttl r)) (py_gt (ttl r) 0))
  = Returned (valid_for_lookup r).
Proof. unfold valid_for_lookup. destruct (ttl r), (static r =? 1); reflexivity. Qed.

(** ** Running the loops *)

Ltac run :=
  unfold mbind, mret, M_bind, M_ret, outcome_bind, outcome_ret, lift, raise,
    get_table, put_table, set_records, set_counter, update_record, emit, print;
  simpl.

Lemma alter_at_end (f : rrecord → rrecord) (done : list rrecord) r todo :
  alter f (length done) (done ++ r :: todo) = done ++ f r :: todo.
Proof.
  replace (length done) with (length done + 0)%nat by lia.
  now rewrite alter_app_r.
Qed.

Lemma decrement_loop_run (todo done : list rrecord) (c : Z) lg sc :
  decrement_loop todo (length done) (World (RRTable.Make (done ++ todo) c) lg sc)
  = (Returned tt, World (RRTable.Make (done ++ map spec_decrement todo) c) lg sc).
Proof.
  revert done. induction todo as [|r todo IH]; intros done; [reflexivity|].
  cbn [decrement_loop map].
  specialize (IH (done ++ [spec_decrement r])).
  rewrite length_app, Nat.add_1_r, <- !app_assoc in IH. simpl in IH.
  unfold mbind at 1, M_bind, lift. rewrite decrement_guard.
  unfold spec_decrement in *.
  destruct (ttl r) as [t|] eqn:Et; [destruct ((static r =? 0) && (0 <? t))|];
    run; rewrite ?alter_at_end; exact IH.
Qed.

Lemma kept_loop_run (todo kept : list rrecord) (w : world) :
  kept_loop todo kept w
  = (Returned (kept ++ List.filter (fun r => negb (spec_expired r)) todo), w).
Proof.
  revert kept. induction todo as [|r todo IH]; intros kept; simpl.
  - now rewrite app_nil_r.
  - unfold mbind, M_bind, lift. rewrite expired_guard.
    destruct (spec_expired r); simpl; rewrite IH; [reflexivity|].
    now rewrite <- app_assoc.
Qed.

Lemma renumber_loop_run (todo done : list rrecord) (c : Z) lg sc :
  renumber_loop todo (length done) (World (RRTable.Make (done ++ todo) c) lg sc)
  = (Returned tt,
     World (RRTable.Make
              (done ++ imap (fun j => set_record_number (Z.of_nat (length done + j))) todo)
              c) lg sc).
Proof.
  revert done. induction todo as [|r todo IH]; intros done; [reflexivity|].
  cbn [renumber_loop imap]. run. rewrite alter_at_end.
  specialize (IH (done ++ [set_record_number (Z.of_nat (length done)) r])).
  rewrite length_app, Nat.add_1_r, <- !app_assoc in IH. simpl in IH.
  rewrite IH, Nat.add_0_r. do 5 f_equal.
  apply imap_ext. intros j x _. simpl. do 2 f_equal. lia.
Qed.

Lemma remove_expired_records_run (w : world) :
  __remove_expired_records w
  = (Returned tt,
     World (let kept := List.filter (fun r => negb (spec_expired r))
                                    (RRTable.records (table w)) in
            RRTable.Make (renumber kept) (Z.of_nat (length kept)))
           (log w) (sched w)).
Proof.
  destruct w as [[recs c] lg sc]. unfold __remove_expired_records.
  unfold mbind at 1, M_bind, get_table. cbn [table RRTable.records].
  unfold mbind at 1, M_bind. rewrite kept_loop_run. cbn [app].
  run.
  pose proof (renumber_loop_run (List.filter (fun r => negb (spec_expired r)) recs) [] c lg sc) as H.
  simpl in H. rewrite H. simpl. unfold renumber. now rewrite length_imap.
Qed.

Lemma decay_tick_run (w : world) :
  decay_tick w = (Returned tt, World (spec_tick (table w)) (log w) (sched w)).
Proof.
  destruct w as [[recs c] lg sc]. unfold decay_tick.
  unfold mbind at 1, M_bind, get_table. cbn [table RRTable.records].
  unfold mbind at 1, M_bind.
  pose proof (decrement_loop_run recs [] c lg sc) as H. simpl in H. rewrite H.
  now rewrite remove_expired_records_run.
Qed.

Lemma decrement_ttl_run (n : nat) (w : world) :
  __decrement_ttl n w = World (decayed n (table w)) (log w) (sched w).
Proof.
  revert w. induction n as [|n IH]; intros w.
  - now destruct w.
  - cbn [__decrement_ttl]. rewrite decay_tick_run, IH. cbn [table log sched].
    unfold decayed. now rewrite Nat.iter_succ_r.
Qed.

Lemma acquire_run (w : world) :
  acquire w
  = (Returned tt, World (decayed (hd O (sched w)) (table w)) (log w) (tl (sched w))).
Proof. unfold acquire. now rewrite decrement_ttl_run. Qed.

(** ** Running the methods *)

Lemma add_record_run (n t r : pyval) (ttl st : Z) (w : world) :
  add_record n t r ttl st w
  = (Returned tt,
     World (inserted (decayed (hd O (sched w)) (table w)) n t r ttl st)
           (log w) (tl (sched w))).
Proof.
  unfold add_record, with_lock. unfold mbind at 1, M_bind. rewrite acquire_run.
  reflexivity.
Qed.

Lemma get_record_loop_run (recs : list rrecord) (n t : string) :
  get_record_loop recs n t = Returned (spec_lookup recs n t).
Proof.
  induction recs as [|r recs IH]; [reflexivity|].
  unfold spec_lookup in *. cbn [get_record_loop find].
  destruct (key_matches r n t); simpl; [|exact IH].
  rewrite valid_guard. simpl. destruct (valid_for_lookup r); [reflexivity | exact IH].
Qed.

Lemma get_record_run (n t : string) (w : world) :
  get_record n t w
  = (Returned (spec_lookup (RRTable.records (decayed (hd O (sched w)) (table w))) n t),
     World (decayed (hd O (sched w)) (table w)) (log w) (tl (sched w))).
Proof.
  unfold get_record, with_lock. unfold mbind at 1, M_bind. rewrite acquire_run.
  run. now rewrite get_record_loop_run.
Qed.

Lemma print_rows_run (recs : list rrecord) (w : world) :
  print_rows recs w
  = (Returned tt, World (table w) (log w ++ map PrintedRow recs) (sched w)).
Proof.
  revert w. induction recs as [|r recs IH]; intros w; simpl.
  - rewrite app_nil_r. now destruct w.
  - run. rewrite IH. simpl. now rewrite <- app_assoc.
Qed.

Lemma display_table_run (w : world) :
  display_table w
  = (Returned tt,
     World (decayed (hd O (sched w)) (table w))
           (log w ++ table_lines (RRTable.records (decayed (hd O (sched w)) (table w))))
           (tl (sched w))).
Proof.
  unfold display_table, with_lock. unfold mbind at 1, M_bind. rewrite acquire_run.
  run. rewrite print_rows_run. simpl. unfold table_lines.
  now rewrite <- app_assoc.
Qed.

(** ** A tick, record by record *)

Lemma tick_one_record (r : rrecord) :
  after_ticks 1 r
  = if spec_expired (spec_decrement r) then None else Some (spec_decrement r).
Proof.
  unfold after_ticks, spec_expired, spec_decrement.
  change (Z.of_nat 1) with 1.
  destruct (ttl r) as [t|] eqn:Et; [|now rewrite Et].
  destruct (static r =? 0) eqn:Es; simpl.
  - destruct (0 <? t) eqn:E0; simpl; rewrite ?Et, ?Es; simpl.
    + destruct (1 <? t) eqn:E1, (t - 1 <=? 0) eqn:E2; try reflexivity; lia.
    + destruct (1 <? t) eqn:E1, (t <=? 0) eqn:E2; try reflexivity; lia.
  - now rewrite Et, Es.
Qed.

Lemma tick_as_omap (l : list rrecord) :
  List.filter (fun r => negb (spec_expired r)) (map spec_decrement l)
  = omap (after_ticks 1) l.
Proof.
  induction l as [|r l IH]; [reflexivity|].
  simpl. rewrite tick_one_record, IH.
  now destruct (spec_expired (spec_decrement r)).
Qed.

Lemma spec_tick_omap (s : RRTable.t) :
  spec_tick s
  = RRTable.Make (renumber (omap (after_ticks 1) (RRTable.records s)))
                 (Z.of_nat (length (omap (after_ticks 1) (RRTable.records s)))).
Proof. unfold spec_tick. cbv zeta. now rewrite tick_as_omap. Qed.

Lemma after_ticks_set_number (n : nat) (i : Z) (r : rrecord) :
  after_ticks n (set_record_number i r) = set_record_number i <$> after_ticks n r.
Proof.
  unfold after_ticks. simpl.
  destruct (ttl r); [|reflexivity].
  destruct (static r =? 0); [|reflexivity].
  now destruct (Z.of_nat n <? z).
Qed.

Lemma after_ticks_succ (n : nat) (r : rrecord) :
  after_ticks n r ≫= after_ticks 1 = after_ticks (S n) r.
Proof.
  unfold after_ticks. change (Z.of_nat 1) with 1.
  assert (Ek : Z.of_nat (S n) = Z.of_nat n + 1) by lia.
  destruct (ttl r) as [t|] eqn:Et; rewrite ?Ek; simpl; [|now rewrite Et].
  destruct (static r =? 0) eqn:Es; simpl; [|now rewrite Et, Es].
  destruct (Z.of_nat n <? t) eqn:E1; simpl; rewrite ?Es.
  - destruct (1 <? t - Z.of_nat n) eqn:E2, (Z.of_nat n + 1 <? t) eqn:E3;
      try reflexivity; try lia.
    unfold set_ttl. simpl. do 3 f_equal. lia.
  - destruct (Z.of_nat n + 1 <? t) eqn:E3; [lia | reflexivity].
Qed.

Lemma omap_bind (f g : rrecord → option rrecord) (l : list rrecord) :
  omap g (omap f l) = omap (fun r => f r ≫= g) l.
Proof.
  induction l as [|r l IH]; [reflexivity|].
  csimpl. destruct (f r) as [r'|]; csimpl; [|exact IH].
  destruct (g r'); now rewrite IH.
Qed.

Lemma omap_pointwise (f g : rrecord → option rrecord) (l : list rrecord) :
  (∀ r, f r = g r) → omap f l = omap g l.
Proof.
  intros H. induction l as [|r l IH]; [reflexivity|].
  csimpl. now rewrite H, IH.
Qed.

Lemma imap_omap_imap (f : rrecord → option rrecord)
    (Hf : ∀ i r, f (set_record_number i r) = set_record_number i <$> f r)
    (l : list rrecord) (g h : nat → Z) :
  imap (fun i => set_record_number (g i)) (omap f (imap (fun i => set_record_number (h i)) l))
  = imap (fun i => set_record_number (g i)) (omap f l).
Proof.
  revert g h. induction l as [|r l IH]; intros g h; [reflexivity|].
  rewrite imap_cons. csimpl. rewrite Hf.
  destruct (f r) as [r'|]; csimpl.
  - f_equal. apply (IH (g ∘ S) (h ∘ S)).
  - apply (IH g (h ∘ S)).
Qed.

Lemma renumber_omap_renumber (n : nat) (l : list rrecord) :
  renumber (omap (after_ticks n) (renumber l)) = renumber (omap (after_ticks n) l).
Proof.
  unfold renumber.
  apply (imap_omap_imap (after_ticks n) (after_ticks_set_number n) l Z.of_nat Z.of_nat).
Qed.

Lemma length_renumber (l : list rrecord) : length (renumber l) = length l.
Proof. apply length_imap. Qed.

Lemma decayed_records (n : nat) (s : RRTable.t) :
  decayed (S n) s
  = RRTable.Make (renumber (omap (after_ticks (S n)) (RRTable.records s)))
                 (Z.of_nat (length (omap (after_ticks (S n)) (RRTable.records s)))).
Proof.
  induction n as [|n IH].
  - apply spec_tick_omap.
  - unfold decayed in *. rewrite Nat.iter_succ, IH, spec_tick_omap.
    cbn [RRTable.records].
    assert (E : renumber (omap (after_ticks 1)
                   (renumber (omap (after_ticks (S n)) (RRTable.records s))))
                = renumber (omap (after_ticks (S (S n))) (RRTable.records s))).
    { rewrite renumber_omap_renumber, omap_bind.
      f_equal. apply omap_pointwise, after_ticks_succ. }
    rewrite E. f_equal.
    apply (f_equal length) in E. rewrite !length_renumber in E. now rewrite E.
Qed.

Lemma length_omap_le (f : rrecord → option rrecord) (l : list rrecord) :
  (length (omap f l) ≤ length l)%nat.
Proof.
  induction l as [|r l IH]; [reflexivity|].
  csimpl. destruct (f r); simpl; lia.
Qed.

(** A record that outlives the ticks keeps its place among the survivors. *)
Lemma survivor_position (n : nat) (l : list rrecord) (i : nat) (r r' : rrecord) :
  l !! i = Some r → after_ticks n r = Some r' →
  ∃ j : nat, (j ≤ i)%nat ∧
    renumber (omap (after_ticks n) l) !! j = Some (set_record_number (Z.of_nat j) r').
Proof.
  intros Hi Hr.
  pose proof (take_drop_middle l i r Hi) as E.
  assert (Hl : length (take i l) = i).
  { rewrite length_take. apply lookup_lt_Some in Hi. lia. }
  revert E Hl. generalize (take i l) (drop (S i) l). intros l1 l2 <- <-.
  exists (length (omap (after_ticks n) l1)). split; [apply length_omap_le|].
  unfold renumber. rewrite list_lookup_imap, omap_app. csimpl. rewrite Hr.
  now rewrite list_lookup_middle.
Qed.

Lemma dense_renumber (l : list rrecord) :
  dense (RRTable.Make (renumber l) (Z.of_nat (length l))).
Proof.
  split; simpl.
  - intros i r. unfold renumber. rewrite list_lookup_imap.
    destruct (l !! i); simpl; [|discriminate]. now intros [= <-].
  - now rewrite length_renumber.
Qed.

Lemma dense_spec_tick (s : RRTable.t) : dense (spec_tick s).
Proof. rewrite spec_tick_omap. apply dense_renumber. Qed.

Lemma dense_decayed (n : nat) (s : RRTable.t) : dense s → dense (decayed n s).
Proof.
  destruct n as [|n]; [easy|]. intros _. rewrite decayed_records. apply dense_renumber.
Qed.

Lemma dense_inserted (s : RRTable.t) (n t r : pyval) (ttl st : Z) :
  dense s → dense (inserted s n t r ttl st).
Proof.
  intros [Hn Hc]. split; simpl.
  - intros i x Hx. apply lookup_app_Some in Hx as [Hx | [Hlen Hx]].
    + now apply Hn.
    + destruct (i - length (RRTable.records s))%nat eqn:E; simpl in Hx; [|discriminate].
      injection Hx as <-. simpl. lia.
  - rewrite length_app. simpl. lia.
Qed.

(** ** The cache: claims about ticks, lookup and numbering *)

(** C1: one decay tick does exactly this, in order: every record with
    static = 0 and a present ttl > 0 has its ttl decremented by 1; then
    exactly the records with static = 0 and a present ttl <= 0 are removed;
    then the survivors are renumbered 0, 1, ... in storage order and the
    counter is set to their number.  The tick returns normally.  A record
    with static <> 0 or with an absent ttl is neither decremented nor
    removed: it is still stored, unchanged but for its number. *)
Theorem decay_tick_steps (w : world) :
  decay_tick w = (Returned tt, World (spec_tick (table w)) (log w) (sched w))
  ∧ (∀ (i : nat) (r : rrecord),
       RRTable.records (table w) !! i = Some r →
       static r ≠ 0 ∨ ttl r = None →
       ∃ j : nat, (j ≤ i)%nat ∧
         RRTable.records (spec_tick (table w)) !! j
         = Some (set_record_number (Z.of_nat j) r)).
Proof.
  split; [apply decay_tick_run|].
  intros i r Hi Hr. rewrite spec_tick_omap. cbn [RRTable.records].
  apply (survivor_position 1 _ i r r Hi).
  unfold after_ticks. destruct Hr as [Hs | ->]; [|reflexivity].
  destruct (ttl r); [|reflexivity].
  now destruct (Z.eqb_spec (static r) 0).
Qed.

Lemma decay_tick_steps_witness :
  ∃ j : nat, (j ≤ 1)%nat ∧
    RRTable.records (spec_tick sample_table) !! j
    = Some (set_record_number (Z.of_nat j) (rec_static 1)).
Proof.
  apply (proj2 (decay_tick_steps sample_world) 1%nat (rec_static 1)).
  - reflexivity.
  - left. discriminate.
Defined.

Lemma find_first (P : rrecord → bool) (l : list rrecord) (r : rrecord) :
  List.find P l = Some r ↔
  ∃ i : nat, l !! i = Some r ∧ P r = true ∧
    ∀ (j : nat) (r' : rrecord), (j < i)%nat → l !! j = Some r' → P r' = false.
Proof.
  induction l as [|x l IH]; simpl.
  - split; [discriminate|]. now intros (i & Hi & _).
  - destruct (P x) eqn:Px.
    + split.
      * intros [= <-]. exists O. repeat split; [assumption|]. intros j r' Hj. lia.
      * intros (i & Hi & Hr & Hfirst). destruct i as [|i]; [exact Hi|].
        specialize (Hfirst O x (Nat.lt_0_succ i) eq_refl). congruence.
    + rewrite IH. split.
      * intros (i & Hi & Hr & Hfirst). exists (S i). repeat split; try assumption.
        intros [|j] r' Hj Hr'; [simpl in Hr'; congruence|].
        apply (Hfirst j); [lia | exact Hr'].
      * intros (i & Hi & Hr & Hfirst). destruct i as [|i].
        { simpl in Hi. congruence. }
        exists i. repeat split; try assumption.
        intros j r' Hj Hr'. apply (Hfirst (S j)); [lia | exact Hr'].
Qed.

Lemma find_nothing (P : rrecord → bool) (l : list rrecord) :
  List.find P l = None ↔ ∀ r : rrecord, r ∈ l → P r = false.
Proof.
  induction l as [|x l IH]; simpl.
  - split; [|reflexivity]. intros _ r Hr. inversion Hr.
  - destruct (P x) eqn:Px.
    + split; [discriminate|]. intros H. specialize (H x (list_elem_of_here x l)).
      congruence.
    + rewrite IH. split.
      * intros H r Hr. apply elem_of_cons in Hr as [-> | Hr]; auto.
      * intros H r Hr. apply H. now apply list_elem_of_further.
Qed.

(** C2: [get_record] returns the first record in storage order whose name
    and type both match and which is valid for lookup (static = 1, or a
    present ttl > 0), and [None] when there is none; records that match
    but are not valid are passed over.  The call writes nothing: the table
    it leaves is the one it scanned, and with no decay iteration in
    between the whole world is as before. *)
Theorem get_record_first_valid (w : world) (n t : string) :
  let tbl := decayed (hd O (sched w)) (table w) in
  let wanted := fun r => key_matches r n t && valid_for_lookup r in
  get_record n t w
  = (Returned (spec_lookup (RRTable.records tbl) n t),
     World tbl (log w) (tl (sched w)))
  ∧ (∀ r : rrecord,
       spec_lookup (RRTable.records tbl) n t = Some r ↔
       ∃ i : nat, RRTable.records tbl !! i = Some r ∧ wanted r = true ∧
         ∀ (j : nat) (r' : rrecord),
           (j < i)%nat → RRTable.records tbl !! j = Some r' → wanted r' = false)
  ∧ (spec_lookup (RRTable.records tbl) n t = None ↔
     ∀ r : rrecord, r ∈ RRTable.records tbl → wanted r = false)
  ∧ (sched w = [] → (get_record n t w).2 = w).
Proof.
  intros tbl wanted. repeat split.
  - apply get_record_run.
  - apply find_first.
  - apply find_first.
  - apply find_nothing.
  - apply find_nothing.
  - intros Hs. rewrite get_record_run. destruct w as [tb lg sc].
    simpl in *. now subst sc.
Qed.

Lemma get_record_first_valid_witness :
  (get_record "a.com" "A" sample_world).2 = sample_world.
Proof.
  apply (proj2 (proj2 (proj2 (get_record_first_valid sample_world "a.com" "A")))).
  reflexivity.
Defined.

(** C5, as worded, at a record with ttl 1: one tick should leave it stored
    with ttl 0 and only the next tick should remove it.  The tick removes
    it at once, and no record with ttl 0 is left. *)
Lemma ttl_one_is_never_seen_at_zero :
  let w := World (RRTable.Make [rec_dynamic 0 1] 1) [] [] in
  RRTable.records (table (decay_tick w).2) = []
  ∧ ¬ (∃ r : rrecord,
         r ∈ RRTable.records (table (decay_tick w).2) ∧ ttl r = Some 0).
Proof.
  cbv zeta. rewrite decay_tick_run. split; [reflexivity|].
  intros (r & Hr & _). inversion Hr.
Qed.

(** C5, amended: after [n >= 1] iterations of the decay thread the table
    holds, in storage order and numbered 0, 1, ..., exactly the records
    that outlive [n] ticks: a record with static = 0 and ttl [t] is still
    there, its ttl lowered by exactly [n], when [n < t], and is gone
    otherwise; every other record is kept as it is.  So the ttl falls by
    1 per tick while it stays above 0, and the tick that would bring it to
    0 removes the record. *)
Theorem ttl_countdown (n : nat) (w : world) :
  (0 < n)%nat →
  let left := omap (after_ticks n) (RRTable.records (table w)) in
  table (__decrement_ttl n w) = RRTable.Make (renumber left) (Z.of_nat (length left))
  ∧ dense (table (__decrement_ttl n w)).
Proof.
  intros Hn left. destruct n as [|n]; [lia|].
  rewrite decrement_ttl_run. cbn [table]. rewrite decayed_records.
  split; [reflexivity | apply dense_renumber].
Qed.

Lemma ttl_countdown_witness :
  table (__decrement_ttl 4 sample_world)
  = RRTable.Make [rec_static 0; rec_malformed 1; rec_dynamic 2 1] 3.
Proof.
  apply (proj1 (ttl_countdown 4 sample_world ltac:(lia))).
Defined.

(** C7: a record with static = 0 and an absent ttl is neither decremented
    nor removed by a tick, which keeps it as it is but for its number; and
    the tick returns normally on every cache state, so the decay thread
    goes on: its iterations never clear the schedule. *)
Theorem decay_keeps_malformed_and_never_raises (w : world) :
  (decay_tick w).1 = Returned tt
  ∧ (∀ n : nat, sched (__decrement_ttl n w) = sched w)
  ∧ (∀ (i : nat) (r : rrecord),
       RRTable.records (table w) !! i = Some r →
       static r = 0 → ttl r = None →
       ∃ j : nat, (j ≤ i)%nat ∧
         RRTable.records (table (decay_tick w).2) !! j
         = Some (set_record_number (Z.of_nat j) r)).
Proof.
  rewrite decay_tick_run. cbn [fst snd table]. repeat split.
  - intros n. now rewrite decrement_ttl_run.
  - intros i r Hi _ Ht. rewrite spec_tick_omap. cbn [RRTable.records].
    apply (survivor_position 1 _ i r r Hi).
    unfold after_ticks. now rewrite Ht.
Qed.

Lemma decay_keeps_malformed_and_never_raises_witness :
  ∃ j : nat, (j ≤ 2)%nat ∧
    RRTable.records (table (decay_tick sample_world).2) !! j
    = Some (set_record_number (Z.of_nat j) (rec_malformed 2)).
Proof.
  apply (proj2 (proj2 (decay_keeps_malformed_and_never_raises sample_world))
           2%nat (rec_malformed 2)); reflexivity.
Defined.

Lemma run_op_table (o : op) (w : world) :
  dense (table w) → dense (table (run_op o w).2).
Proof.
  intros H. destruct o as [n t r ttl st | n t | | ]; unfold run_op.
  - rewrite add_record_run. simpl. now apply dense_inserted, dense_decayed.
  - unfold mbind, M_bind. rewrite get_record_run. simpl. now apply dense_decayed.
  - rewrite display_table_run. simpl. now apply dense_decayed.
  - rewrite decay_tick_run. simpl. apply dense_spec_tick.
Qed.

(** C8: the record at position [i] has record_number [i] and the counter is
    the number of stored records.  This holds of the fresh table, every
    operation (add_record, get_record, display_table, a decay tick, with
    whatever decay iterations slip in before the lock is granted) keeps
    it, and so it holds after any sequence of operations. *)
Theorem numbering_invariant :
  dense RRTable.init
  ∧ (∀ (o : op) (w : world), dense (table w) → dense (table (run_op o w).2))
  ∧ (∀ (ops : list op) (lg : list event) (sc : list nat),
       dense (table (run_ops ops (World RRTable.init lg sc)))).
Proof.
  assert (H0 : dense RRTable.init).
  { split; [|reflexivity]. intros i r Hi. destruct i; discriminate. }
  split; [exact H0|]. split; [exact run_op_table|].
  intros ops lg sc.
  assert (G : ∀ w, dense (table w) → dense (table (run_ops ops w))).
  { induction ops as [|o ops IH]; intros w Hw; [exact Hw|].
    simpl. apply IH, run_op_table, Hw. }
  apply G, H0.
Qed.

Lemma numbering_invariant_witness :
  dense (table (run_op (OpAdd (PStr "e.com") (PStr "A") (PStr "5.6.7.8") 5 0)
                  (World RRTable.init [] [2%nat])).2).
Proof.
  apply (proj1 (proj2 numbering_invariant)).
  apply (proj1 numbering_invariant).
Defined.

(** ** The type registry *)

(** C9: the registry is a fixed two-way mapping.  A, AAAA, CNAME and NS
    have the codes 8, 4, 2 and 1, which are distinct and small, and
    [get_type_name] of each code gives the name back; any other name has no
    code and any other code has no name. *)
Theorem type_registry_bijection :
  (DNSTypes.get_type_code "A" = Some 8 ∧ DNSTypes.get_type_name 8 = Some "A"%string)
  ∧ (DNSTypes.get_type_code "AAAA" = Some 4 ∧ DNSTypes.get_type_name 4 = Some "AAAA"%string)
  ∧ (DNSTypes.get_type_code "CNAME" = Some 2 ∧ DNSTypes.get_type_name 2 = Some "CNAME"%string)
  ∧ (DNSTypes.get_type_code "NS" = Some 1 ∧ DNSTypes.get_type_name 1 = Some "NS"%string)
  ∧ (∀ (n : string) (c : Z),
       DNSTypes.get_type_code n = Some c ↔ DNSTypes.get_type_name c = Some n)
  ∧ (∀ (n1 n2 : string) (c : Z),
       DNSTypes.get_type_code n1 = Some c → DNSTypes.get_type_code n2 = Some c → n1 = n2)
  ∧ (∀ (n : string) (c : Z), DNSTypes.get_type_code n = Some c → 0 < c < 16)
  ∧ (∀ n : string,
       n ∉ ["A"; "AAAA"; "CNAME"; "NS"]%string → DNSTypes.get_type_code n = None)
  ∧ (∀ c : Z, c ∉ [8; 4; 2; 1] → DNSTypes.get_type_name c = None).
Proof.
  assert (Hcode : ∀ n c, DNSTypes.get_type_code n = Some c ↔
            (n = "A"%string ∧ c = 8) ∨ (n = "AAAA"%string ∧ c = 4)
            ∨ (n = "CNAME"%string ∧ c = 2) ∨ (n = "NS"%string ∧ c = 1)).
  { intros n c. unfold DNSTypes.get_type_code, DNSTypes.name_to_code. simpl.
    rewrite !lookup_insert_Some, lookup_empty.
    intuition (subst; try discriminate; auto 10). }
  assert (Hname : ∀ c n, DNSTypes.get_type_name c = Some n ↔
            (n = "A"%string ∧ c = 8) ∨ (n = "AAAA"%string ∧ c = 4)
            ∨ (n = "CNAME"%string ∧ c = 2) ∨ (n = "NS"%string ∧ c = 1)).
  { intros c n. unfold DNSTypes.get_type_name, DNSTypes.code_to_name. simpl.
    rewrite !lookup_insert_Some, lookup_empty.
    intuition (subst; try discriminate; auto 10). }
  repeat split; try (apply Hcode; auto 10); try (apply Hname; auto 10).
  - intros H. apply Hname, Hcode, H.
  - intros H. apply Hcode, Hname, H.
  - intros n1 n2 c H1 H2. apply Hcode in H1, H2.
    intuition (subst; try discriminate; auto).
  - apply Hcode in H. intuition lia.
  - apply Hcode in H. intuition lia.
  - intros n Hn. destruct (DNSTypes.get_type_code n) as [c|] eqn:E; [|reflexivity].
    apply Hcode in E. exfalso. apply Hn.
    rewrite !elem_of_cons. intuition.
  - intros c Hc. destruct (DNSTypes.get_type_name c) as [n|] eqn:E; [|reflexivity].
    apply Hname in E. exfalso. apply Hc.
    rewrite !elem_of_cons. intuition.
Qed.

Lemma type_registry_bijection_witness :
  DNSTypes.get_type_code "MX" = None ∧ DNSTypes.get_type_name 3 = None.
Proof.
  destruct type_registry_bijection as (_ & _ & _ & _ & _ & _ & _ & Hn & Hc).
  split.
  - apply Hn. intros H. repeat (apply elem_of_cons in H as [H | H]; [discriminate|]).
    inversion H.
  - apply Hc. intros H. repeat (apply elem_of_cons in H as [H | H]; [discriminate|]).
    inversion H.
Defined.

(** ** One resolution attempt, path by path *)

Lemma receive_message_returns (e : env) (w : world) (x : string * (string * Z)) :
  recv_outcome e = Returned x → receive_message e w = (Returned x, w).
Proof.
  unfold recv_outcome, receive_message. destruct (recv e) as [data address|ex errno text].
  - now intros [= <-].
  - destruct ex; discriminate.
Qed.

Lemma receive_message_raises (e : env) (w : world) (ex : exn) :
  recv_outcome e = Raised ex → receive_message e w = (Raised ex, notified e w).
Proof.
  unfold recv_outcome, receive_message, notified, recv_notice.
  destruct w as [tb lg sc].
  destruct (recv e) as [data address|x errno text]; [discriminate|].
  destruct x; intros [= <-]; cbn [table log sched]; rewrite ?app_nil_r;
    try reflexivity.
  unfold mbind, M_bind, print, emit, raise.
  destruct (errno =? ECONNRESET e); cbn [table log sched];
    now rewrite <- app_assoc.
Qed.

Lemma notified_caught (e : env) (w : world) (ex : exn) :
  recv_outcome e = Raised ex → is_Exception ex = true → notified e w = w.
Proof.
  unfold recv_outcome, notified, recv_notice. destruct w as [tb lg sc].
  destruct (recv e) as [data address|x errno text]; [discriminate|].
  destruct x; intros [= <-]; try discriminate; intros _;
    cbn [table log sched]; now rewrite app_nil_r.
Qed.

Section ClientProofs.
Variable json_dumps : pyval → string.
Variable json_loads : string → outcome pyval.
Variable int_of_str : string → outcome Z.

Abbreviation handle := (handle_request json_dumps json_loads int_of_str).
Abbreviation tx_of e := (Z.land (time_ms e) 0xFFFFFFFF).
Abbreviation payload_of e h q := (json_dumps (query_packet (tx_of e) h q)).

Ltac step := unfold mbind at 1, M_bind at 1.

Ltac enter H :=
  unfold handle_request; step;
  rewrite get_record_run in *; cbn [fst] in H; injection H as ->.

Ltac enter_reply H Hs Hr :=
  enter H; step; unfold send_message; rewrite Hs;
  step; unfold try_except; step; cbn [emit table log sched];
  rewrite (receive_message_returns _ _ _ Hr); unfold lift;
  cbn [emit table log sched mret M_ret fst]; step; unfold deserialize.

Lemma handle_hit e h q w r :
  (get_record h q w).1 = Returned (Some r) →
  handle e h q w = display_table (looked_up w).
Proof. intros H. enter H. reflexivity. Qed.

Lemma handle_send_raises e h q w ex :
  (get_record h q w).1 = Returned None →
  send_outcome e = Raised ex →
  handle e h q w = (Raised ex, looked_up w).
Proof.
  intros H Hs. enter H. step. unfold send_message. now rewrite Hs.
Qed.

Lemma handle_recv_raises e h q w ex :
  (get_record h q w).1 = Returned None →
  send_outcome e = Returned tt →
  recv_outcome e = Raised ex →
  handle e h q w =
    if is_Exception ex
    then (Returned tt,
          said "No response from Local DNS (timeout or socket error)"
               (queried (payload_of e h q) w))
    else (Raised ex, notified e (queried (payload_of e h q) w)).
Proof.
  intros H Hs Hr. enter H. step. unfold send_message. rewrite Hs.
  step. unfold try_except. step. cbn [emit table log sched].
  rewrite (receive_message_raises _ _ _ Hr).
  destruct (is_Exception ex) eqn:Hx.
  - rewrite (notified_caught _ _ _ Hr Hx). destruct ex; try discriminate; reflexivity.
  - destruct ex; try discriminate; reflexivity.
Qed.

Lemma handle_decode_raises e h q w data addr ex :
  (get_record h q w).1 = Returned None →
  send_outcome e = Returned tt →
  recv_outcome e = Returned (data, addr) →
  json_loads data = Raised ex →
  handle e h q w = (Raised ex, queried (payload_of e h q) w).
Proof.
  intros H Hs Hr Hd. enter_reply H Hs Hr. now rewrite Hd.
Qed.

Lemma handle_not_dict e h q w data addr v :
  (get_record h q w).1 = Returned None →
  send_outcome e = Returned tt →
  recv_outcome e = Returned (data, addr) →
  json_loads data = Returned v →
  isinstance_dict v = false →
  handle e h q w
  = (Returned tt, said "mismatched response; ignoring." (queried (payload_of e h q) w)).
Proof.
  intros H Hs Hr Hd Hv. enter_reply H Hs Hr. rewrite Hd.
  destruct v; try discriminate; reflexivity.
Qed.

Lemma handle_mismatch e h q w data addr d :
  (get_record h q w).1 = Returned None →
  send_outcome e = Returned tt →
  recv_outcome e = Returned (data, addr) →
  json_loads data = Returned (PDict d) →
  py_eq_int (dict_get d "id") (tx_of e) = false
  ∨ py_eq_str (dict_get d "flag") RESP_FLAG = false →
  handle e h q w
  = (Returned tt, said "mismatched response; ignoring." (queried (payload_of e h q) w)).
Proof.
  intros H Hs Hr Hd Hm. enter_reply H Hs Hr. rewrite Hd.
  destruct Hm as [-> | ->]; [reflexivity|].
  now rewrite orb_true_r.
Qed.

Lemma handle_answer_not_dict e h q w data addr d :
  (get_record h q w).1 = Returned None →
  send_outcome e = Returned tt →
  recv_outcome e = Returned (data, addr) →
  json_loads data = Returned (PDict d) →
  py_eq_int (dict_get d "id") (tx_of e) = true →
  py_eq_str (dict_get d "flag") RESP_FLAG = true →
  isinstance_dict (default (PDict ∅) (d !! "answer"%string)) = false →
  handle e h q w = (Raised AttributeError, queried (payload_of e h q) w).
Proof.
  intros H Hs Hr Hd Hi Hf Ha. enter_reply H Hs Hr. rewrite Hd, Hi, Hf.
  cbn [negb orb]. step. unfold lift.
  destruct (default (PDict ∅) (d !! "answer"%string)); try discriminate; reflexivity.
Qed.

Lemma handle_negative e h q w data addr d ans :
  (get_record h q w).1 = Returned None →
  send_outcome e = Returned tt →
  recv_outcome e = Returned (data, addr) →
  json_loads data = Returned (PDict d) →
  py_eq_int (dict_get d "id") (tx_of e) = true →
  py_eq_str (dict_get d "flag") RESP_FLAG = true →
  default (PDict ∅) (d !! "answer"%string) = PDict ans →
  py_eq_str (default (PStr NOT_FOUND) (ans !! "result"%string)) NOT_FOUND = true →
  handle e h q w = display_table (queried (payload_of e h q) w).
Proof.
  intros H Hs Hr Hd Hi Hf Ha Hn. enter_reply H Hs Hr. rewrite Hd, Hi, Hf, Ha.
  cbn [negb orb]. step. unfold lift, method_get. step. rewrite Hn.
  reflexivity.
Qed.

Lemma handle_positive e h q w data addr d ans :
  (get_record h q w).1 = Returned None →
  send_outcome e = Returned tt →
  recv_outcome e = Returned (data, addr) →
  json_loads data = Returned (PDict d) →
  py_eq_int (dict_get d "id") (tx_of e) = true →
  py_eq_str (dict_get d "flag") RESP_FLAG = true →
  default (PDict ∅) (d !! "answer"%string) = PDict ans →
  py_eq_str (default (PStr NOT_FOUND) (ans !! "result"%string)) NOT_FOUND = false →
  handle e h q w =
    match py_int int_of_str (default (PInt 60) (ans !! "ttl"%string)) with
    | Returned t =>
        (_ ← add_record (default (PStr h) (ans !! "name"%string))
                        (default (PStr q) (ans !! "type"%string))
                        (default (PStr NOT_FOUND) (ans !! "result"%string)) t 0;
         display_table) (queried (payload_of e h q) w)
    | Raised ex => (Raised ex, queried (payload_of e h q) w)
    end.
Proof.
  intros H Hs Hr Hd Hi Hf Ha Hn. enter_reply H Hs Hr. rewrite Hd, Hi, Hf, Ha.
  cbn [negb orb]. step. unfold lift, method_get. step. rewrite Hn.
  cbn [negb]. step. step.
  destruct (py_int int_of_str (default (PInt 60) (ans !! "ttl"%string))); reflexivity.
Qed.

(** ** Claims about a resolution attempt *)

Lemma handle_installs e h q w data addr d ans t :
  (get_record h q w).1 = Returned None →
  send_outcome e = Returned tt →
  recv_outcome e = Returned (data, addr) →
  json_loads data = Returned (PDict d) →
  py_eq_int (dict_get d "id") (tx_of e) = true →
  py_eq_str (dict_get d "flag") RESP_FLAG = true →
  default (PDict ∅) (d !! "answer"%string) = PDict ans →
  py_eq_str (result_of ans) NOT_FOUND = false →
  py_int int_of_str (default (PInt 60) (ans !! "ttl"%string)) = Returned t →
  let tbl :=
    decayed (hd O (tl (tl (sched w))))
      (inserted (decayed (hd O (tl (sched w))) (decayed (hd O (sched w)) (table w)))
                (name_of ans h) (type_of ans q) (result_of ans) t 0) in
  handle e h q w
  = (Returned tt,
     World tbl
           ((log w ++ [SentTo (payload_of e h q) LOCAL_DNS_ADDR])
              ++ table_lines (RRTable.records tbl))
           (tl (tl (tl (sched w))))).
Proof.
  intros H Hs Hr Hd Hi Hf Ha Hn Ht tbl.
  rewrite (handle_positive _ _ _ _ _ _ _ _ H Hs Hr Hd Hi Hf Ha Hn), Ht.
  step. rewrite add_record_run, display_table_run. reflexivity.
Qed.

(** C3: when an attempt misses the cache and then the receive times out or
    raises, or the reply does not decode, or decodes to something that is
    not a dict, or carries another id than the one just sent, or another
    flag than the response flag, the attempt writes nothing to the cache:
    the table is left as the lookup found it, so with no decay iteration
    in between it is the table the attempt started with.  A reply with a
    stale or foreign id is therefore never installed. *)
Theorem unanswered_attempt_leaves_cache e h q w :
  (get_record h q w).1 = Returned None →
  unanswered json_loads e →
  table (handle e h q w).2 = decayed (hd O (sched w)) (table w)
  ∧ (sched w = [] → table (handle e h q w).2 = table w).
Proof.
  intros H U.
  assert (G : table (handle e h q w).2 = decayed (hd O (sched w)) (table w)).
  { destruct (send_outcome e) as [[]|sx] eqn:Hs.
    - destruct U as [line D | ex Hr | data addr ex Hr Hd].
      + destruct D as [ex Hr Hx | data addr v Hr Hd Hv
                      | data addr d Hr Hd Hi | data addr d Hr Hd Hf].
        * rewrite (handle_recv_raises _ _ _ _ _ H Hs Hr), Hx. reflexivity.
        * rewrite (handle_not_dict _ _ _ _ _ _ _ H Hs Hr Hd Hv). reflexivity.
        * rewrite (handle_mismatch _ _ _ _ _ _ _ H Hs Hr Hd (or_introl Hi)). reflexivity.
        * rewrite (handle_mismatch _ _ _ _ _ _ _ H Hs Hr Hd (or_intror Hf)). reflexivity.
      + rewrite (handle_recv_raises _ _ _ _ _ H Hs Hr).
        destruct (is_Exception ex); reflexivity.
      + rewrite (handle_decode_raises _ _ _ _ _ _ _ H Hs Hr Hd). reflexivity.
    - rewrite (handle_send_raises _ _ _ _ _ H Hs). reflexivity. }
  split; [exact G|]. intros Hsc. rewrite G, Hsc. reflexivity.
Qed.

(** C4, amended: for every reply that carries the id just sent and the
    response flag.  If its answer (an empty dict when the key is missing)
    is not a dict, the call raises and nothing is inserted.  If it is the
    dict [ans]: when the result is the sentinel "Record not found",
    nothing is inserted and the call returns; otherwise the ttl is
    [int(ans.get("ttl", 60))], which is 60 when the answer carries no ttl
    and [t] when it carries the integer [t].  When that conversion gives
    [t], the call returns and exactly one record has been appended,
    numbered by the counter, with static = 0, ttl [t] and the answer's
    name, type and result (the queried name and type when the answer
    leaves them out); the table then only changes by the decay iterations
    that slip in, and with none it is the old table plus that record.
    When the conversion raises, the call raises and nothing is inserted. *)
Theorem answer_is_installed e h q w data addr d :
  let n1 := hd O (sched w) in
  let n2 := hd O (tl (sched w)) in
  let n3 := hd O (tl (tl (sched w))) in
  let answer := default (PDict ∅) (d !! "answer"%string) in
  (get_record h q w).1 = Returned None →
  send_outcome e = Returned tt →
  recv_outcome e = Returned (data, addr) →
  json_loads data = Returned (PDict d) →
  py_eq_int (dict_get d "id") (tx_of e) = true →
  py_eq_str (dict_get d "flag") RESP_FLAG = true →
  (isinstance_dict answer = false →
     (handle e h q w).1 = Raised AttributeError
     ∧ table (handle e h q w).2 = decayed n1 (table w))
  ∧ ∀ ans : gmap string pyval,
      answer = PDict ans →
      (py_eq_str (result_of ans) NOT_FOUND = true →
         (handle e h q w).1 = Returned tt
         ∧ table (handle e h q w).2 = decayed n2 (decayed n1 (table w))
         ∧ (sched w = [] → table (handle e h q w).2 = table w))
      ∧ (ans !! "ttl"%string = None → ttl_of int_of_str ans = Returned 60)
      ∧ (∀ t : Z, ans !! "ttl"%string = Some (PInt t) →
                  ttl_of int_of_str ans = Returned t)
      ∧ (py_eq_str (result_of ans) NOT_FOUND = false →
         ∀ t : Z,
           ttl_of int_of_str ans = Returned t →
           (handle e h q w).1 = Returned tt
           ∧ table (handle e h q w).2
             = decayed n3 (inserted (decayed n2 (decayed n1 (table w)))
                                    (name_of ans h) (type_of ans q) (result_of ans) t 0)
           ∧ (sched w = [] →
              table (handle e h q w).2
              = RRTable.Make
                  (RRTable.records (table w) ++
                     [ {| record_number := RRTable.record_number (table w);
                          name := name_of ans h;
                          type := type_of ans q;
                          result := result_of ans;
                          ttl := Some t;
                          static := 0 |} ])
                  (RRTable.record_number (table w) + 1)))
      ∧ (py_eq_str (result_of ans) NOT_FOUND = false →
         ∀ ex : exn,
           ttl_of int_of_str ans = Raised ex →
           (handle e h q w).1 = Raised ex
           ∧ table (handle e h q w).2 = decayed n1 (table w)).
Proof.
  intros n1 n2 n3 answer H Hs Hr Hd Hi Hf. split.
  - intros Ha. rewrite (handle_answer_not_dict _ _ _ _ _ _ _ H Hs Hr Hd Hi Hf Ha).
    split; reflexivity.
  - intros ans Ha. split; [|split; [|split; [|split]]].
    + intros Hn. rewrite (handle_negative _ _ _ _ _ _ _ _ H Hs Hr Hd Hi Hf Ha Hn).
      rewrite display_table_run. cbn [fst snd table sched queried].
      split; [reflexivity|]. split; [reflexivity|].
      intros Hsc. subst n1 n2. rewrite Hsc. reflexivity.
    + intros Ht. unfold ttl_of. now rewrite Ht.
    + intros t Ht. unfold ttl_of. now rewrite Ht.
    + intros Hn t Ht.
      rewrite (handle_installs _ _ _ _ _ _ _ _ _ H Hs Hr Hd Hi Hf Ha Hn Ht).
      cbn [fst snd table].
      split; [reflexivity|]. split; [reflexivity|].
      intros Hsc. subst n1 n2 n3. rewrite Hsc. reflexivity.
    + intros Hn ex Ht.
      rewrite (handle_positive _ _ _ _ _ _ _ _ H Hs Hr Hd Hi Hf Ha Hn).
      unfold ttl_of in Ht. rewrite Ht. split; reflexivity.
Qed.

(** C10: for a reply that carries the id just sent and the response flag,
    if it has no "answer" key, or its answer is a dict without a "result"
    key, the result is the sentinel and the reply counts as a negative
    answer: the call returns without raising, nothing is inserted, and
    nothing is printed but the table. *)
Theorem missing_result_is_negative e h q w data addr d :
  (get_record h q w).1 = Returned None →
  send_outcome e = Returned tt →
  recv_outcome e = Returned (data, addr) →
  json_loads data = Returned (PDict d) →
  py_eq_int (dict_get d "id") (tx_of e) = true →
  py_eq_str (dict_get d "flag") RESP_FLAG = true →
  d !! "answer"%string = None
  ∨ (∃ ans : gmap string pyval,
       d !! "answer"%string = Some (PDict ans) ∧ ans !! "result"%string = None) →
  (handle e h q w).1 = Returned tt
  ∧ table (handle e h q w).2
    = decayed (hd O (tl (sched w))) (decayed (hd O (sched w)) (table w))
  ∧ (sched w = [] → table (handle e h q w).2 = table w)
  ∧ log (handle e h q w).2
    = log w ++ [SentTo (payload_of e h q) LOCAL_DNS_ADDR]
            ++ table_lines (RRTable.records (table (handle e h q w).2)).
Proof.
  intros H Hs Hr Hd Hi Hf Hans.
  assert (∃ ans : gmap string pyval,
            default (PDict ∅) (d !! "answer"%string) = PDict ans
            ∧ py_eq_str (default (PStr NOT_FOUND) (ans !! "result"%string)) NOT_FOUND = true)
    as (ans & Ha & Hn).
  { destruct Hans as [-> | (ans & -> & Hres)].
    - exists ∅. split; reflexivity.
    - exists ans. split; [reflexivity|]. now rewrite Hres. }
  rewrite (handle_negative _ _ _ _ _ _ _ _ H Hs Hr Hd Hi Hf Ha Hn).
  rewrite display_table_run. cbn [fst snd table sched log queried].
  repeat split.
  - intros Hsc. now rewrite Hsc.
  - now rewrite <- app_assoc.
Qed.

Lemma message_is_no_snapshot (w : world) (before : list event) (line : string) :
  line ≠ "record_no,name,type,result,ttl,static"%string →
  log w = before ++ [Printed line] → ¬ ends_with_snapshot w.
Proof.
  intros Hline Hlog (pre & Hpre). rewrite Hlog in Hpre. unfold table_lines in Hpre.
  destruct (RRTable.records (table w)) as [|r recs] using rev_ind.
  - simpl in Hpre. apply app_inj_tail in Hpre as [_ [= E]]. contradiction.
  - rewrite map_app, app_comm_cons, app_assoc in Hpre. simpl in Hpre.
    apply app_inj_tail in Hpre as [_ E]. discriminate.
Qed.

(** C6, amended: an attempt ends by presenting the cache snapshot when
    the lookup hits, and when it misses, the query is sent and a reply
    with the right id and flag brings a negative answer or a positive one
    whose ttl converts to an int.  When the receive raises an [Exception]
    or the reply is mismatched, the attempt returns after its one-line
    message and presents no snapshot. *)
Theorem snapshot_when_hit_or_answered e h q w :
  (∀ r : rrecord,
     (get_record h q w).1 = Returned (Some r) →
     (handle e h q w).1 = Returned tt ∧ ends_with_snapshot (handle e h q w).2)
  ∧ (∀ ans : gmap string pyval,
       (get_record h q w).1 = Returned None →
       send_outcome e = Returned tt →
       correlated json_loads e ans →
       py_eq_str (result_of ans) NOT_FOUND = true
       ∨ (∃ t : Z, ttl_of int_of_str ans = Returned t) →
       (handle e h q w).1 = Returned tt ∧ ends_with_snapshot (handle e h q w).2)
  ∧ (∀ line : string,
       (get_record h q w).1 = Returned None →
       send_outcome e = Returned tt →
       dismissed json_loads e line →
       (handle e h q w).1 = Returned tt
       ∧ log (handle e h q w).2
         = log w ++ [SentTo (payload_of e h q) LOCAL_DNS_ADDR; Printed line]
       ∧ ¬ ends_with_snapshot (handle e h q w).2).
Proof.
  split; [|split].
  - intros r H. rewrite (handle_hit _ _ _ _ _ H), display_table_run.
    split; [reflexivity|]. now exists (log w).
  - intros ans H Hs (data & addr & d & Hr & Hd & Hi & Hf & Ha) Hcase.
    destruct (py_eq_str (result_of ans) NOT_FOUND) eqn:Hn.
    + rewrite (handle_negative _ _ _ _ _ _ _ _ H Hs Hr Hd Hi Hf Ha Hn).
      rewrite display_table_run. split; [reflexivity|].
      now eexists.
    + destruct Hcase as [? | [t Ht]]; [discriminate|].
      rewrite (handle_installs _ _ _ _ _ _ _ _ _ H Hs Hr Hd Hi Hf Ha Hn Ht).
      split; [reflexivity|]. now eexists.
  - intros line H Hs D.
    assert (E : handle e h q w = (Returned tt, said line (queried (payload_of e h q) w))).
    { destruct D as [ex Hr Hx | data addr v Hr Hd Hv
                    | data addr d Hr Hd Hi | data addr d Hr Hd Hf].
      - now rewrite (handle_recv_raises _ _ _ _ _ H Hs Hr), Hx.
      - apply (handle_not_dict _ _ _ _ _ _ _ H Hs Hr Hd Hv).
      - apply (handle_mismatch _ _ _ _ _ _ _ H Hs Hr Hd (or_introl Hi)).
      - apply (handle_mismatch _ _ _ _ _ _ _ H Hs Hr Hd (or_intror Hf)). }
    rewrite E. split; [reflexivity|]. split.
    + cbn [snd log said queried]. now rewrite <- app_assoc.
    + apply (message_is_no_snapshot _
               (log w ++ [SentTo (payload_of e h q) LOCAL_DNS_ADDR]) line);
        [destruct D; discriminate | reflexivity].
Qed.
End ClientProofs.

(** ** The claims on the sample data *)

Lemma unanswered_attempt_leaves_cache_witness :
  table (handle_request canned_dumps
           (canned_loads (PDict (reply_with (sample_tx - 1) answer_e))) no_int
           env_reply "e.com" "A" sample_world).2
  = table sample_world.
Proof.
  refine (proj2 (unanswered_attempt_leaves_cache canned_dumps
                   (canned_loads (PDict (reply_with (sample_tx - 1) answer_e))) no_int
                   env_reply "e.com" "A" sample_world eq_refl _) eq_refl).
  apply (Dismissed _ _ "mismatched response; ignoring.").
  apply (Id_differs _ _ "reply" LOCAL_DNS_ADDR (reply_with (sample_tx - 1) answer_e));
    reflexivity.
Defined.

Lemma sample_reply_correlated (answer : gmap string pyval) :
  correlated (canned_loads (PDict (reply_with sample_tx answer))) env_reply answer.
Proof.
  exists "reply"%string, LOCAL_DNS_ADDR, (reply_with sample_tx answer).
  repeat split.
Defined.

Lemma answer_is_installed_witness :
  table (handle_request canned_dumps
           (canned_loads (PDict (reply_with sample_tx answer_e))) no_int
           env_reply "e.com" "A" sample_world).2
  = RRTable.Make
      (RRTable.records sample_table
         ++ [Rec 4 (PStr "e.com") (PStr "A") (PStr "5.6.7.8") (Some 5) 0])
      5.
Proof.
  destruct (answer_is_installed canned_dumps
              (canned_loads (PDict (reply_with sample_tx answer_e))) no_int
              env_reply "e.com" "A" sample_world
              "reply" LOCAL_DNS_ADDR (reply_with sample_tx answer_e)
              eq_refl eq_refl eq_refl eq_refl eq_refl eq_refl)
    as (_ & Hdict).
  destruct (Hdict answer_e eq_refl) as (_ & _ & _ & Hpos & _).
  destruct (Hpos eq_refl 5 eq_refl) as (_ & _ & G).
  exact (G eq_refl).
Defined.

(** C4, as worded, at a reply with the right id and flag and a positive
    result whose ttl is null: one record should be appended; the
    conversion of the ttl raises instead and the table is left as it
    was. *)
Lemma null_ttl_is_not_installed :
  let reply := reply_with sample_tx answer_null_ttl in
  py_eq_int (dict_get reply "id") (Z.land (time_ms env_reply) 0xFFFFFFFF) = true
  ∧ py_eq_str (dict_get reply "flag") RESP_FLAG = true
  ∧ py_eq_str (result_of answer_null_ttl) NOT_FOUND = false
  ∧ handle_request canned_dumps (canned_loads (PDict reply)) no_int
      env_reply "e.com" "A" sample_world
    = (Raised TypeError,
       World sample_table [SentTo "query" LOCAL_DNS_ADDR] []).
Proof. cbv zeta. repeat split. Qed.

Lemma missing_result_is_negative_witness :
  (handle_request canned_dumps
     (canned_loads (PDict (reply_without_answer sample_tx))) no_int
     env_reply "e.com" "A" sample_world).1 = Returned tt
  ∧ table (handle_request canned_dumps
             (canned_loads (PDict (reply_without_answer sample_tx))) no_int
             env_reply "e.com" "A" sample_world).2
    = table sample_world.
Proof.
  destruct (missing_result_is_negative canned_dumps
              (canned_loads (PDict (reply_without_answer sample_tx))) no_int
              env_reply "e.com" "A" sample_world
              "reply" LOCAL_DNS_ADDR (reply_without_answer sample_tx)
              eq_refl eq_refl eq_refl eq_refl eq_refl eq_refl (or_introl eq_refl))
    as (G1 & _ & G2 & _).
  split; [exact G1 | exact (G2 eq_refl)].
Defined.

(** C6, as worded, when the receive times out: the miss is followed by
    the query and the one-line message, and no snapshot is presented. *)
Lemma timeout_presents_no_snapshot :
  let final := (handle_request canned_dumps broken_loads no_int
                  env_timeout "c.com" "A" sample_world).2 in
  (get_record "c.com" "A" sample_world).1 = Returned None
  ∧ log final
    = [SentTo "query" LOCAL_DNS_ADDR;
       Printed "No response from Local DNS (timeout or socket error)"]
  ∧ ¬ ends_with_snapshot final.
Proof.
  cbv zeta. split; [reflexivity|]. split; [reflexivity|].
  apply (message_is_no_snapshot _ [SentTo "query" LOCAL_DNS_ADDR]
           "No response from Local DNS (timeout or socket error)");
    [discriminate | reflexivity].
Qed.

Lemma snapshot_when_hit_or_answered_witness :
  ends_with_snapshot (handle_request canned_dumps broken_loads no_int
                        env_timeout "a.com" "A" sample_world).2.
Proof.
  apply (proj1 (snapshot_when_hit_or_answered canned_dumps broken_loads no_int
                  env_timeout "a.com" "A" sample_world) (rec_dynamic 0 1)).
  reflexivity.
Defined.

(** ** Scenarios *)

(** A record inserted with ttl 2 is found before and after one tick, and
    is gone once two ticks have run. *)
Example scenario_ttl_two :
  let w := (add_record (PStr "a.com") (PStr "A") (PStr "1.2.3.4") 2 0
              (World RRTable.init [] [])).2 in
  (get_record "a.com" "A" (World (table w) [] [1%nat])).1
  = Returned (Some (Rec 0 (PStr "a.com") (PStr "A") (PStr "1.2.3.4") (Some 1) 0))
  ∧ (get_record "a.com" "A" (World (table w) [] [2%nat])).1 = Returned None
  ∧ (get_record "a.com" "A" (World (table w) [] [3%nat])).1 = Returned None.
Proof. repeat split. Qed.

(** A static record is still found after ten ticks. *)
Example scenario_static :
  let w := (add_record (PStr "b.com") (PStr "NS") (PStr "ns1.b.com") 0 1
              (World RRTable.init [] [])).2 in
  (get_record "b.com" "NS" (World (table w) [] [10%nat])).1
  = Returned (Some (Rec 0 (PStr "b.com") (PStr "NS") (PStr "ns1.b.com") None 1)).
Proof. reflexivity. Qed.

(** A negative answer is presented like any other, and not cached. *)
Example scenario_not_found :
  handle_request canned_dumps
    (canned_loads (PDict (reply_with sample_tx answer_not_found))) no_int
    env_reply "d.com" "A" (World RRTable.init [] [])
  = (Returned tt,
     World RRTable.init
           [SentTo "query" LOCAL_DNS_ADDR;
            Printed "record_no,name,type,result,ttl,static"] []).
Proof. reflexivity. Qed.

(** An [OSError] in the receive is reported by [receive_message], which
    closes the socket and exits: the [SystemExit] passes through
    [handle_request]. *)
Example scenario_connection_reset :
  handle_request canned_dumps broken_loads no_int env_reset "e.com" "A"
    (World RRTable.init [] [])
  = (Raised SystemExit,
     World RRTable.init
           [SentTo "query" LOCAL_DNS_ADDR;
            Printed "Error: Unable to reach the other socket. It might not be up and running.";
            SocketClosed] []).
Proof. reflexivity. Qed.

(** A reply that does not decode, an answer that is not a dict and a ttl
    that does not convert all raise out of [handle_request]; nothing is
    inserted and nothing more is printed. *)
Example scenario_uncaught :
  (handle_request canned_dumps broken_loads no_int env_reply "e.com" "A"
     (World RRTable.init [] []))
  = (Raised JSONDecodeError,
     World RRTable.init [SentTo "query" LOCAL_DNS_ADDR] [])
  ∧ (handle_request canned_dumps
       (canned_loads (PDict (<["answer"%string := PNone]> (reply_without_answer sample_tx))))
       no_int env_reply "e.com" "A" (World RRTable.init [] []))
    = (Raised AttributeError,
       World RRTable.init [SentTo "query" LOCAL_DNS_ADDR] [])
  ∧ (handle_request canned_dumps
       (canned_loads (PDict (reply_with sample_tx (<["ttl"%string := PNone]> answer_e))))
       no_int env_reply "e.com" "A" (World RRTable.init [] []))
    = (Raised TypeError,
       World RRTable.init [SentTo "query" LOCAL_DNS_ADDR] []).
Proof. repeat split. Qed.

(** * Further properties *)

(** ** Insert, lookup and decay together *)

Lemma find_app_none (P : rrecord → bool) (l1 l2 : list rrecord) :
  (∀ x, x ∈ l1 → P x = false) → List.find P (l1 ++ l2) = List.find P l2.
Proof.
  induction l1 as [|a l1 IH]; intros H; [reflexivity|].
  simpl. rewrite (H a (list_elem_of_here a l1)).
  apply IH. intros x Hx. apply H. now apply list_elem_of_further.
Qed.

Lemma find_app_some (P : rrecord → bool) (l1 l2 : list rrecord) (r : rrecord) :
  List.find P l1 = Some r → List.find P (l1 ++ l2) = Some r.
Proof.
  induction l1 as [|a l1 IH]; [discriminate|].
  simpl. destruct (P a); [easy | exact IH].
Qed.

Lemma after_ticks_content (k : nat) (x y : rrecord) :
  after_ticks k x = Some y → content y = content x ∧ record_number y = record_number x.
Proof.
  unfold after_ticks. destruct (ttl x) as [t|]; [|now intros [= <-]].
  destruct (static x =? 0); [|now intros [= <-]].
  destruct (Z.of_nat k <? t); [|discriminate]. now intros [= <-].
Qed.

Lemma key_matches_content (x y : rrecord) (n t : string) :
  content y = content x → key_matches y n t = key_matches x n t.
Proof. unfold content, key_matches. now intros [= -> -> _ _]. Qed.

Lemma omap_no_match (k : nat) (l : list rrecord) (n t : string) :
  (∀ x, x ∈ l → key_matches x n t = false) →
  ∀ y, y ∈ omap (after_ticks k) l → key_matches y n t = false.
Proof.
  intros H y Hy. apply list_elem_of_omap in Hy as (x & Hx & Hxy).
  apply after_ticks_content in Hxy as [Hc _].
  rewrite (key_matches_content x y n t Hc). now apply H.
Qed.

Lemma renumber_no_match (P : rrecord → bool) (f : nat → Z) (l : list rrecord) :
  (∀ (i : Z) (x : rrecord), P (set_record_number i x) = P x) →
  (∀ x, x ∈ l → P x = false) →
  ∀ y, y ∈ imap (fun i => set_record_number (f i)) l → P y = false.
Proof.
  intros HP H y Hy. apply elem_of_lookup_imap in Hy as (i & x & -> & Hx).
  rewrite HP. apply H. apply list_elem_of_lookup. eauto.
Qed.

(** The record [new] appended to records that do not have its key is the
    only candidate of a lookup, also after [k] ticks. *)
Lemma lookup_only_candidate (recs : list rrecord) (c : Z) (new : rrecord)
    (n t : string) (k : nat) :
  (∀ x, x ∈ recs → key_matches x n t = false) →
  fields <$> spec_lookup
               (RRTable.records (decayed k (RRTable.Make (recs ++ [new]) c))) n t
  = fields <$> (match k with O => Some new | S _ => after_ticks k new end
                ≫= fun y => if key_matches y n t && valid_for_lookup y
                            then Some y else None).
Proof.
  intros H. unfold spec_lookup.
  set (P := fun r => key_matches r n t && valid_for_lookup r).
  assert (HP : ∀ (i : Z) (x : rrecord), P (set_record_number i x) = P x) by reflexivity.
  assert (HPf : ∀ x, key_matches x n t = false → P x = false).
  { intros x Hx. unfold P. now rewrite Hx. }
  destruct k as [|k].
  - change (decayed 0 (RRTable.Make (recs ++ [new]) c))
      with (RRTable.Make (recs ++ [new]) c).
    cbn [RRTable.records]. rewrite find_app_none by auto.
    cbn [List.find]. csimpl. fold (P new). now destruct (P new).
  - rewrite decayed_records. cbn [RRTable.records].
    rewrite omap_app. unfold renumber. rewrite imap_app.
    rewrite find_app_none.
    2:{ apply renumber_no_match; [exact HP|].
        intros y Hy. apply HPf. revert y Hy. now apply omap_no_match. }
    csimpl. destruct (after_ticks (S k) new) as [y|]; [|reflexivity].
    csimpl. fold (P y). rewrite HP. now destruct (P y).
Qed.

(** X1: a record that [add_record] stores as valid for lookup (static = 1,
    or static = 0 with a ttl above 0) under a key whose lookup missed is
    what the next lookup of that key returns, numbered by the old counter. *)
Theorem inserted_record_is_found (w : world) (n t : string) (r : pyval) (ttl st : Z) :
  sched w = [] →
  (get_record n t w).1 = Returned None →
  (st = 0 ∧ 0 < ttl) ∨ st = 1 →
  (get_record n t (add_record (PStr n) (PStr t) r ttl st w).2).1
  = Returned (Some (Rec (RRTable.record_number (table w)) (PStr n) (PStr t) r
                        (if st =? 0 then Some ttl else None) st)).
Proof.
  intros Hsc Hmiss Hvalid. rewrite add_record_run, get_record_run in *.
  rewrite Hsc in *. cbn [fst snd sched table tl hd] in *.
  change (decayed 0 ?x) with x in *.
  injection Hmiss as Hmiss. f_equal.
  unfold spec_lookup in *. cbn [inserted RRTable.records].
  rewrite find_app_none.
  - simpl. unfold key_matches, valid_for_lookup. simpl.
    rewrite !String.eqb_refl. simpl.
    destruct Hvalid as [[-> Ht] | ->]; simpl; [|reflexivity].
    now destruct (Z.ltb_spec 0 ttl); [|lia].
  - now apply find_nothing.
Qed.

Lemma inserted_record_is_found_witness :
  (get_record "e.com" "A"
     (add_record (PStr "e.com") (PStr "A") (PStr "5.6.7.8") 5 0 sample_world).2).1
  = Returned (Some (Rec 4 (PStr "e.com") (PStr "A") (PStr "5.6.7.8") (Some 5) 0)).
Proof.
  apply (inserted_record_is_found sample_world "e.com" "A" (PStr "5.6.7.8") 5 0).
  - reflexivity.
  - reflexivity.
  - left. split; [reflexivity | lia].
Defined.

(** X2: [add_record] never shadows an older entry: when a lookup finds a
    record, it finds the same record after any insertion, a duplicate of
    its key included. *)
Theorem older_record_wins (w : world) (n t : string) (r0 : rrecord)
    (nm ty res : pyval) (ttl st : Z) :
  sched w = [] →
  (get_record n t w).1 = Returned (Some r0) →
  (get_record n t (add_record nm ty res ttl st w).2).1 = Returned (Some r0).
Proof.
  intros Hsc Hhit. rewrite add_record_run, get_record_run in *.
  rewrite Hsc in *. cbn [fst snd sched table tl hd] in *.
  change (decayed 0 ?x) with x in *.
  injection Hhit as Hhit. f_equal.
  unfold spec_lookup in *. cbn [inserted RRTable.records].
  now apply find_app_some.
Qed.

Lemma older_record_wins_witness :
  (get_record "a.com" "A"
     (add_record (PStr "a.com") (PStr "A") (PStr "6.6.6.6") 300 0 sample_world).2).1
  = Returned (Some (rec_dynamic 0 1)).
Proof.
  apply (older_record_wins sample_world "a.com" "A" (rec_dynamic 0 1)); reflexivity.
Defined.

(** X3: an answer cached with ttl [ttl] under a key that no stored record
    has is served for exactly [ttl] ticks: looked up after [k] iterations
    of the decay thread it is found, with ttl [ttl - k], when [k < ttl],
    and not found otherwise.  With a ttl of 0 or less it is never served. *)
Theorem served_exactly_ttl_ticks (w : world) (n t : string) (r : pyval) (ttl : Z)
    (k : nat) (sc : list nat) :
  sched w = O :: k :: sc →
  (∀ x, x ∈ RRTable.records (table w) → key_matches x n t = false) →
  ∃ found : option rrecord,
    (get_record n t (add_record (PStr n) (PStr t) r ttl 0 w).2).1 = Returned found
    ∧ fields <$> found
      = if Z.of_nat k <? ttl
        then Some (PStr n, PStr t, r, Some (ttl - Z.of_nat k), 0)
        else None.
Proof.
  intros Hsc Hkey. rewrite add_record_run, get_record_run.
  rewrite Hsc. cbn [fst snd sched table tl hd]. eexists. split; [reflexivity|].
  change (decayed 0 ?x) with x. unfold inserted.
  rewrite lookup_only_candidate by exact Hkey.
  destruct k as [|k].
  - change (Z.of_nat 0) with 0. rewrite Z.sub_0_r.
    csimpl. unfold key_matches, valid_for_lookup. simpl.
    rewrite !String.eqb_refl. simpl.
    now destruct (0 <? ttl).
  - unfold after_ticks.
    remember (Z.of_nat (S k)) as kk eqn:Ekk.
    assert (0 < kk) by lia. clear Ekk. simpl.
    destruct (kk <? ttl) eqn:E; [|reflexivity].
    csimpl. unfold key_matches, valid_for_lookup. simpl.
    rewrite !String.eqb_refl. simpl.
    destruct (Z.ltb_spec 0 (ttl - kk)); [reflexivity|lia].
Qed.

Lemma served_exactly_ttl_ticks_witness :
  ∃ found : option rrecord,
    (get_record "e.com" "A"
       (add_record (PStr "e.com") (PStr "A") (PStr "5.6.7.8") 5 0
          (World sample_table [] [O; 5%nat])).2).1 = Returned found
    ∧ fields <$> found = None.
Proof.
  apply (served_exactly_ttl_ticks (World sample_table [] [O; 5%nat])
           "e.com" "A" (PStr "5.6.7.8") 5 5 []).
  - reflexivity.
  - intros x Hx.
    repeat (apply elem_of_cons in Hx as [-> | Hx]; [reflexivity|]).
    inversion Hx.
Defined.

(** X4: with a static flag other than 0, [add_record] drops the ttl it is
    given; the record is still stored after any number of ticks, and a
    lookup of its key (that no other record has) finds it exactly when the
    flag is 1: with any other flag it is never served and never evicted. *)
Theorem static_flag_decides (w : world) (n t : string) (r : pyval) (ttl st : Z)
    (k : nat) (sc : list nat) :
  sched w = O :: k :: sc →
  st ≠ 0 →
  (∀ x, x ∈ RRTable.records (table w) → key_matches x n t = false) →
  let after := get_record n t (add_record (PStr n) (PStr t) r ttl st w).2 in
  (∃ x : rrecord,
     x ∈ RRTable.records (table after.2) ∧ fields x = (PStr n, PStr t, r, None, st))
  ∧ ∃ found : option rrecord,
      after.1 = Returned found
      ∧ fields <$> found
        = if st =? 1 then Some (PStr n, PStr t, r, None, st) else None.
Proof.
  intros Hsc Hst Hkey after. subst after.
  rewrite add_record_run, get_record_run.
  rewrite Hsc. cbn [fst snd sched table tl hd].
  change (decayed 0 ?x) with x. unfold inserted.
  destruct (Z.eqb_spec st 0) as [|_]; [contradiction|].
  set (new := Rec (RRTable.record_number (table w)) (PStr n) (PStr t) r None st).
  assert (Hnew : ∀ j, after_ticks j new = Some new) by reflexivity.
  split.
  - destruct k as [|k].
    + exists new. split; [|reflexivity].
      change (decayed 0 ?x) with x. cbn [RRTable.records].
      apply elem_of_app. right. apply list_elem_of_here.
    + rewrite decayed_records. cbn [RRTable.records].
      destruct (survivor_position (S k) (RRTable.records (table w) ++ [new])
                  (length (RRTable.records (table w))) new new) as (j & _ & Hj).
      * now rewrite list_lookup_middle.
      * apply Hnew.
      * eexists. split; [apply list_elem_of_lookup; eauto | reflexivity].
  - eexists. split; [reflexivity|].
    rewrite lookup_only_candidate by exact Hkey.
    assert (E : match k with O => Some new | S _ => after_ticks k new end = Some new)
      by (now destruct k).
    rewrite E. csimpl. unfold key_matches, valid_for_lookup. simpl.
    rewrite !String.eqb_refl. simpl. rewrite orb_false_r.
    now destruct (st =? 1).
Qed.

Lemma static_flag_decides_witness :
  ∃ found : option rrecord,
    (get_record "x.com" "NS"
       (add_record (PStr "x.com") (PStr "NS") (PStr "ns.x.com") 30 2
          (World sample_table [] [O; 100%nat])).2).1 = Returned found
    ∧ fields <$> found = None.
Proof.
  apply (proj2 (static_flag_decides (World sample_table [] [O; 100%nat])
                  "x.com" "NS" (PStr "ns.x.com") 30 2 100 []
                  eq_refl ltac:(discriminate)
                  ltac:(intros x Hx;
                        repeat (apply elem_of_cons in Hx as [-> | Hx]; [reflexivity|]);
                        inversion Hx))).
Defined.

(** X5: a cache that holds only dynamic records empties: once the decay
    thread has run at least one iteration and as many as the largest ttl,
    no record is left and the counter is back to 0. *)
Theorem dynamic_cache_drains (w : world) (k : nat) :
  (0 < k)%nat →
  (∀ x, x ∈ RRTable.records (table w) →
        static x = 0 ∧ ∃ t : Z, ttl x = Some t ∧ t ≤ Z.of_nat k) →
  table (__decrement_ttl k w) = RRTable.Make [] 0.
Proof.
  intros Hk Hall. destruct k as [|k]; [lia|].
  rewrite decrement_ttl_run. cbn [table]. rewrite decayed_records.
  assert (E : omap (after_ticks (S k)) (RRTable.records (table w)) = []).
  { induction (RRTable.records (table w)) as [|x l IH]; [reflexivity|].
    csimpl. destruct (Hall x (list_elem_of_here x l)) as (Hs & t & Ht & Hle).
    unfold after_ticks at 1. rewrite Ht, Hs. simpl Z.eqb. cbv iota.
    destruct (Z.ltb_spec (Z.of_nat (S k)) t); [lia|].
    apply IH. intros y Hy. apply Hall. now apply list_elem_of_further. }
  now rewrite E.
Qed.

Lemma dynamic_cache_drains_witness :
  table (__decrement_ttl 5
           (World (RRTable.Make [rec_dynamic 0 1; rec_dynamic 1 5] 2) [] []))
  = RRTable.Make [] 0.
Proof.
  apply dynamic_cache_drains; [lia|].
  intros x Hx. split.
  - repeat (apply elem_of_cons in Hx as [-> | Hx]; [reflexivity|]). inversion Hx.
  - apply elem_of_cons in Hx as [-> | Hx]; [exists 1; split; [reflexivity | lia]|].
    apply elem_of_cons in Hx as [-> | Hx]; [exists 5; split; [reflexivity | lia]|].
    inversion Hx.
Defined.

Lemma omap_content_sublist (k : nat) (l : list rrecord) :
  map content (omap (after_ticks k) l) `sublist_of` map content l.
Proof.
  induction l as [|x l IH]; [constructor|].
  csimpl. destruct (after_ticks k x) as [y|] eqn:E.
  - apply after_ticks_content in E as [E _]. csimpl. rewrite E. now constructor.
  - now constructor.
Qed.

(** X6: the decay thread only drops records: after any number of
    iterations, the names, types, results and static flags of the stored
    records are those of before, in the same order, with some left out;
    nothing is added, swapped or rewritten, and the table never grows. *)
Theorem decay_only_drops (k : nat) (w : world) :
  map content (RRTable.records (table (__decrement_ttl k w)))
    `sublist_of` map content (RRTable.records (table w))
  ∧ (length (RRTable.records (table (__decrement_ttl k w)))
     ≤ length (RRTable.records (table w)))%nat.
Proof.
  rewrite decrement_ttl_run. cbn [table].
  assert (S : map content (RRTable.records (decayed k (table w)))
                `sublist_of` map content (RRTable.records (table w))).
  { destruct k as [|k]; [reflexivity|].
    rewrite decayed_records. cbn [RRTable.records].
    unfold renumber.
    replace (map content (imap (fun i => set_record_number (Z.of_nat i))
                            (omap (after_ticks (S k)) (RRTable.records (table w)))))
      with (map content (omap (after_ticks (S k)) (RRTable.records (table w)))).
    - apply omap_content_sublist.
    - symmetry. change map with (@fmap list _). rewrite fmap_imap.
      rewrite <- (imap_const content). reflexivity. }
  split; [exact S|].
  apply sublist_length in S. now rewrite !length_map in S.
Qed.

(** ** Every way a resolution attempt can go *)

Section ClientMore.
Variable json_dumps : pyval → string.
Variable json_loads : string → outcome pyval.
Variable int_of_str : string → outcome Z.

Abbreviation attempt := (handle_request json_dumps json_loads int_of_str).
Abbreviation sent e h q :=
  (json_dumps (query_packet (Z.land (time_ms e) 0xFFFFFFFF) h q)).

Lemma notified_returned (e : env) (w : world) (x : string * (string * Z)) :
  recv_outcome e = Returned x → notified e w = w.
Proof.
  unfold recv_outcome, notified, recv_notice. destruct w as [tb lg sc].
  destruct (recv e) as [data address|ex errno text].
  - intros _. cbn [table log sched]. now rewrite app_nil_r.
  - destruct ex; discriminate.
Qed.

Lemma get_record_returns (h q : string) (w : world) :
  (∃ r, (get_record h q w).1 = Returned (Some r))
  ∨ (get_record h q w).1 = Returned None.
Proof.
  rewrite get_record_run. cbn [fst].
  destruct (spec_lookup _ h q); eauto.
Qed.

Lemma handle_request_cases e h q w :
  (∃ r, (get_record h q w).1 = Returned (Some r)
        ∧ attempt e h q w = display_table (looked_up w))
  ∨ ((get_record h q w).1 = Returned None
     ∧ ((∃ ex, send_outcome e = Raised ex
               ∧ attempt e h q w = (Raised ex, looked_up w))
        ∨ (send_outcome e = Returned tt
           ∧ ((∃ ex, attempt e h q w
                     = (Raised ex, notified e (queried (sent e h q) w)))
              ∨ (∃ line, attempt e h q w
                         = (Returned tt, said line (queried (sent e h q) w)))
              ∨ attempt e h q w = display_table (queried (sent e h q) w)
              ∨ (∃ nm ty res t,
                   attempt e h q w
                   = (_ ← add_record nm ty res t 0; display_table)
                       (queried (sent e h q) w)))))).
Proof.
  destruct (get_record_returns h q w) as [[r H] | H].
  { left. exists r. split; [exact H|]. now apply handle_hit with r. }
  right. split; [exact H|].
  destruct (send_outcome e) as [[]|sx] eqn:Hs.
  2:{ left. exists sx. split; [reflexivity|]. now apply handle_send_raises. }
  right. split; [reflexivity|].
  destruct (recv_outcome e) as [[data addr]|rx] eqn:Hr.
  2:{ rewrite (handle_recv_raises _ _ _ _ _ _ _ _ H Hs Hr).
      destruct (is_Exception rx); eauto. }
  rewrite (notified_returned e _ _ Hr).
  destruct (json_loads data) as [v|dx] eqn:Hd.
  2:{ left. exists dx. now apply handle_decode_raises with data addr. }
  destruct (isinstance_dict v) eqn:Hv.
  2:{ right. left. eexists. now apply handle_not_dict with data addr v. }
  destruct v as [| | | | | |d]; try discriminate.
  destruct (py_eq_int (dict_get d "id") (Z.land (time_ms e) 0xFFFFFFFF)) eqn:Hi.
  2:{ right. left. eexists. apply handle_mismatch with data addr d; auto. }
  destruct (py_eq_str (dict_get d "flag") RESP_FLAG) eqn:Hf.
  2:{ right. left. eexists. apply handle_mismatch with data addr d; auto. }
  destruct (isinstance_dict (default (PDict ∅) (d !! "answer"%string))) eqn:Ha.
  2:{ left. eexists. now apply handle_answer_not_dict with data addr d. }
  destruct (default (PDict ∅) (d !! "answer"%string)) as [| | | | | |ans] eqn:Hans;
    try discriminate.
  destruct (py_eq_str (default (PStr NOT_FOUND) (ans !! "result"%string)) NOT_FOUND)
    eqn:Hn.
  { right. right. left. now apply handle_negative with data addr d ans. }
  rewrite (handle_positive _ _ _ _ _ _ _ _ _ _ _ H Hs Hr Hd Hi Hf Hans Hn).
  destruct (py_int int_of_str (default (PInt 60) (ans !! "ttl"%string))); eauto 10.
Qed.

Lemma decayed_decayed (a b : nat) (s : RRTable.t) :
  decayed a (decayed b s) = decayed (a + b) s.
Proof. unfold decayed. now rewrite Nat.iter_add. Qed.

Lemma dynamic_decayed (k : nat) (s : RRTable.t) :
  Forall dynamic (RRTable.records s) → Forall dynamic (RRTable.records (decayed k s)).
Proof.
  intros H. destruct k as [|k]; [exact H|].
  rewrite decayed_records. cbn [RRTable.records].
  rewrite Forall_forall in *. intros y Hy.
  apply elem_of_lookup_imap in Hy as (i & x & -> & Hx).
  assert (Hx' : x ∈ omap (after_ticks (S k)) (RRTable.records s)).
  { apply list_elem_of_lookup. eauto. }
  apply list_elem_of_omap in Hx' as (x0 & Hx0 & Hage).
  destruct (H x0 Hx0) as [Hs [t Ht]].
  unfold after_ticks in Hage. rewrite Ht, Hs in Hage. simpl in Hage.
  destruct (Z.of_nat (S k) <? t); [|discriminate].
  injection Hage as <-. split; [exact Hs | now eexists].
Qed.

Lemma dynamic_inserted (s : RRTable.t) (nm ty res : pyval) (t : Z) :
  Forall dynamic (RRTable.records s) →
  Forall dynamic (RRTable.records (inserted s nm ty res t 0)).
Proof.
  intros H. cbn [inserted RRTable.records]. apply Forall_app. split; [exact H|].
  constructor; [|constructor]. split; [reflexivity | now eexists].
Qed.

Lemma add_then_display (nm ty res : pyval) (t : Z) (w0 : world) :
  (_ ← add_record nm ty res t 0; display_table) w0
  = (Returned tt,
     World (decayed (hd O (tl (sched w0)))
              (inserted (decayed (hd O (sched w0)) (table w0)) nm ty res t 0))
           (log w0 ++ table_lines (RRTable.records
              (decayed (hd O (tl (sched w0)))
                 (inserted (decayed (hd O (sched w0)) (table w0)) nm ty res t 0))))
           (tl (tl (sched w0)))).
Proof.
  unfold mbind at 1, M_bind at 1. now rewrite add_record_run, display_table_run.
Qed.

Lemma recv_notice_no_query (e : env) :
  Forall (fun ev => is_query ev = false) (recv_notice e).
Proof.
  unfold recv_notice. destruct (recv e) as [|ex errno text]; [constructor|].
  destruct ex; repeat constructor.
Qed.

(** X7: a cache hit stays local.  Whatever the network would do, the
    attempt returns, sends nothing and inserts nothing: all it adds to the
    log is the table. *)
Theorem cache_hit_stays_local e h q w r :
  (get_record h q w).1 = Returned (Some r) →
  let tbl := decayed (hd O (tl (sched w))) (decayed (hd O (sched w)) (table w)) in
  attempt e h q w
  = (Returned tt,
     World tbl (log w ++ table_lines (RRTable.records tbl)) (tl (tl (sched w))))
  ∧ (sched w = [] → table (attempt e h q w).2 = table w).
Proof.
  intros H tbl. rewrite (handle_hit _ _ _ _ _ _ _ _ H), display_table_run.
  split; [reflexivity|]. intros Hsc. cbn [snd table sched looked_up].
  now rewrite Hsc.
Qed.

(** X8: an attempt that misses the cache and whose send succeeds puts
    exactly one query on the wire, whatever comes back: the log grows by
    that query, addressed to the local DNS server, followed by no other
    query.  Its id is the millisecond clock modulo 2^32. *)
Theorem one_query_per_miss e h q w :
  (get_record h q w).1 = Returned None →
  send_outcome e = Returned tt →
  (∃ tail : list event,
     log (attempt e h q w).2
     = log w ++ SentTo (sent e h q) LOCAL_DNS_ADDR :: tail
     ∧ Forall (fun ev => is_query ev = false) tail)
  ∧ Z.land (time_ms e) 0xFFFFFFFF = time_ms e mod 2 ^ 32
  ∧ 0 ≤ Z.land (time_ms e) 0xFFFFFFFF < 2 ^ 32.
Proof.
  intros H Hs.
  assert (Hlines : ∀ recs, Forall (fun ev => is_query ev = false) (table_lines recs)).
  { intros recs. constructor; [reflexivity|].
    apply Forall_forall. intros ev Hev.
    apply list_elem_of_fmap in Hev as (x & -> & _). reflexivity. }
  split.
  - destruct (handle_request_cases e h q w)
      as [(r & Hr & _) | (_ & [(ex & Hx & _) | (_ & [(ex & E) | [(line & E) | [E | (nm & ty & res & t & E)]]])])];
      try congruence; rewrite E.
    + exists (recv_notice e). split; [|apply recv_notice_no_query].
      cbn [snd log notified queried]. now rewrite <- app_assoc.
    + exists [Printed line]. split.
      * cbn [snd log said queried]. now rewrite <- app_assoc.
      * repeat constructor.
    + rewrite display_table_run. eexists. split.
      * cbn [snd log queried]. rewrite <- app_assoc. reflexivity.
      * apply Hlines.
    + rewrite add_then_display.
      eexists. split.
      * cbn [snd log queried]. rewrite <- app_assoc. reflexivity.
      * apply Hlines.
  - change 0xFFFFFFFF with (Z.ones 32). rewrite Z.land_ones by lia.
    split; [reflexivity|]. apply Z.mod_pos_bound. lia.
Qed.

Lemma attempt_table e h q w :
  ∃ a : nat,
    table (attempt e h q w).2 = decayed a (table w)
    ∨ ∃ (b : nat) (nm ty res : pyval) (t : Z),
        table (attempt e h q w).2
        = decayed b (inserted (decayed a (table w)) nm ty res t 0).
Proof.
  destruct (handle_request_cases e h q w)
    as [(r & _ & E) | (_ & [(ex & _ & E) | (_ & [(ex & E) | [(line & E) | [E | (nm & ty & res & t & E)]]])])];
    rewrite E.
  - rewrite display_table_run. cbn [snd table sched looked_up].
    rewrite decayed_decayed. eexists. left. reflexivity.
  - eexists. left. reflexivity.
  - eexists. left. reflexivity.
  - eexists. left. reflexivity.
  - rewrite display_table_run. cbn [snd table sched queried].
    rewrite decayed_decayed. eexists. left. reflexivity.
  - rewrite add_then_display.
    cbn [snd table sched queried]. rewrite decayed_decayed.
    eexists. right. eexists _, _, _, _, _. reflexivity.
Qed.

(** X9: whatever the peer sends and however the attempt ends, returning or
    raising, [handle_request] keeps the numbering invariant: record
    numbers are the positions and the counter is the number of records. *)
Theorem attempt_keeps_numbering e h q w :
  dense (table w) → dense (table (attempt e h q w).2).
Proof.
  intros H. destruct (attempt_table e h q w) as (a & [-> | (b & nm & ty & res & t & ->)]).
  - now apply dense_decayed.
  - now apply dense_decayed, dense_inserted, dense_decayed.
Qed.

(** X10: [handle_request] only ever stores dynamic records: if every
    stored record has static = 0 and a ttl, so it is after the attempt,
    whatever the reply carries. *)
Theorem attempt_keeps_dynamic e h q w :
  Forall dynamic (RRTable.records (table w)) →
  Forall dynamic (RRTable.records (table (attempt e h q w).2)).
Proof.
  intros H. destruct (attempt_table e h q w) as (a & [-> | (b & nm & ty & res & t & ->)]).
  - now apply dynamic_decayed.
  - now apply dynamic_decayed, dynamic_inserted, dynamic_decayed.
Qed.

(** X11: with no decay iteration in between, an attempt leaves every
    stored record as it is and appends at most one: the table is the old
    one, or the old one with one record inserted with static = 0. *)
Theorem attempt_appends_at_most_one e h q w :
  sched w = [] →
  table (attempt e h q w).2 = table w
  ∨ ∃ (nm ty res : pyval) (t : Z),
      table (attempt e h q w).2 = inserted (table w) nm ty res t 0.
Proof.
  intros Hsc.
  destruct (handle_request_cases e h q w)
    as [(r & _ & E) | (_ & [(ex & _ & E) | (_ & [(ex & E) | [(line & E) | [E | (nm & ty & res & t & E)]]])])];
    rewrite E.
  - left. rewrite display_table_run. cbn [snd table sched looked_up]. now rewrite Hsc.
  - left. cbn [snd table looked_up]. now rewrite Hsc.
  - left. cbn [snd table notified queried]. now rewrite Hsc.
  - left. cbn [snd table said queried]. now rewrite Hsc.
  - left. rewrite display_table_run. cbn [snd table sched queried]. now rewrite Hsc.
  - right. exists nm, ty, res, t.
    rewrite add_then_display.
    cbn [snd table sched queried]. now rewrite Hsc.
Qed.

(** X12: an attempt that raises has changed nothing in the cache and
    shown neither the table nor one of its own messages: the table is as
    the lookup found it, and the log has gained nothing, or the query
    followed by what [receive_message] itself logs before exiting on an
    [OSError] (its error line and the closing of the socket), which is
    nothing in every other case. *)
Theorem raising_attempt_changes_nothing e h q w ex :
  (attempt e h q w).1 = Raised ex →
  table (attempt e h q w).2 = decayed (hd O (sched w)) (table w)
  ∧ (log (attempt e h q w).2 = log w
     ∨ log (attempt e h q w).2
       = log w ++ SentTo (sent e h q) LOCAL_DNS_ADDR :: recv_notice e)
  ∧ (sched w = [] → table (attempt e h q w).2 = table w).
Proof.
  intros Hex.
  assert (G : table (attempt e h q w).2 = decayed (hd O (sched w)) (table w)
              ∧ (log (attempt e h q w).2 = log w
                 ∨ log (attempt e h q w).2
                   = log w ++ SentTo (sent e h q) LOCAL_DNS_ADDR :: recv_notice e)).
  { destruct (handle_request_cases e h q w)
      as [(r & _ & E) | (_ & [(x & _ & E) | (_ & [(x & E) | [(line & E) | [E | (nm & ty & res & t & E)]]])])];
      rewrite E in *.
    - rewrite display_table_run in Hex. discriminate.
    - split; [reflexivity | now left].
    - split; [reflexivity | right].
      cbn [snd log notified queried]. now rewrite <- app_assoc.
    - discriminate.
    - rewrite display_table_run in Hex. discriminate.
    - rewrite add_then_display in Hex. discriminate. }
  destruct G as [G1 G2]. repeat split; try assumption.
  intros Hsc. rewrite G1, Hsc. reflexivity.
Qed.

Lemma sample_table_dense : dense sample_table.
Proof.
  split; [|reflexivity]. intros i r Hi.
  do 4 (destruct i as [|i]; [now injection Hi as <-|]). discriminate.
Defined.

Lemma table_lines_no_query (recs : list rrecord) :
  Forall (fun ev => is_query ev = false) (table_lines recs).
Proof.
  constructor; [reflexivity|]. apply Forall_forall. intros ev Hev.
  apply list_elem_of_fmap in Hev as (x & -> & _). reflexivity.
Qed.

(** What an attempt adds to the log: printed lines and at most its query. *)
Lemma attempt_log e h q w :
  ∃ extra : list event,
    log (attempt e h q w).2 = log w ++ extra
    ∧ Forall (fun ev => is_query ev = false
                        ∨ ev = SentTo (sent e h q) LOCAL_DNS_ADDR) extra.
Proof.
  destruct (handle_request_cases e h q w)
    as [(r & _ & E) | (_ & [(x & _ & E) | (_ & [(x & E) | [(line & E) | [E | (nm & ty & res & t & E)]]])])];
    rewrite E.
  - rewrite display_table_run. eexists. split; [reflexivity|].
    eapply Forall_impl; [apply table_lines_no_query | auto].
  - exists []. split; [cbn; now rewrite app_nil_r | constructor].
  - exists (SentTo (sent e h q) LOCAL_DNS_ADDR :: recv_notice e). split.
    + cbn [snd log notified queried]. now rewrite <- app_assoc.
    + constructor; [now right|].
      eapply Forall_impl; [apply recv_notice_no_query | auto].
  - exists [SentTo (sent e h q) LOCAL_DNS_ADDR; Printed line]. split.
    + cbn [snd log said queried]. now rewrite <- app_assoc.
    + constructor; [now right|]. constructor; [now left | constructor].
  - rewrite display_table_run. eexists. split.
    + cbn [snd log queried]. rewrite <- app_assoc. reflexivity.
    + constructor; [now right|].
      eapply Forall_impl; [apply table_lines_no_query | auto].
  - rewrite add_then_display. eexists. split.
    + cbn [snd log queried]. rewrite <- app_assoc. reflexivity.
    + constructor; [now right|].
      eapply Forall_impl; [apply table_lines_no_query | auto].
Qed.

Lemma installed_world e h q w ans t :
  sched w = [] →
  (get_record h q w).1 = Returned None →
  send_outcome e = Returned tt →
  correlated json_loads e ans →
  py_eq_str (result_of ans) NOT_FOUND = false →
  ttl_of int_of_str ans = Returned t →
  ∃ lg : list event,
    (attempt e h q w).2
    = World (inserted (table w) (name_of ans h) (type_of ans q) (result_of ans) t 0)
            lg [].
Proof.
  intros Hsc H Hs (data & addr & d & Hr & Hd & Hi & Hf & Ha) Hn Ht.
  rewrite (handle_installs _ _ _ _ _ _ _ _ _ _ _ _ H Hs Hr Hd Hi Hf Ha Hn Ht).
  rewrite Hsc. eexists. reflexivity.
Qed.

(** X13: the cache is keyed by what the reply says, not by what was
    asked.  After an attempt has installed a positive answer with a ttl
    above 0 under the reply's name [h'] and type [q'] (the question's when
    the reply leaves them out), a lookup of [h'], [q'] that missed before
    finds that record, and the next attempt for [h'], [q'] is a hit that
    sends nothing, whatever the network would do. *)
Theorem reply_key_is_cached e e' h q h' q' w ans t :
  sched w = [] →
  (get_record h q w).1 = Returned None →
  send_outcome e = Returned tt →
  correlated json_loads e ans →
  py_eq_str (result_of ans) NOT_FOUND = false →
  ttl_of int_of_str ans = Returned t →
  0 < t →
  name_of ans h = PStr h' →
  type_of ans q = PStr q' →
  (get_record h' q' w).1 = Returned None →
  let w1 := (attempt e h q w).2 in
  (get_record h' q' w1).1
  = Returned (Some (Rec (RRTable.record_number (table w)) (PStr h') (PStr q')
                        (result_of ans) (Some t) 0))
  ∧ attempt e' h' q' w1
    = (Returned tt,
       World (table w1) (log w1 ++ table_lines (RRTable.records (table w1))) []).
Proof.
  intros Hsc H Hs Hc Hn Ht Hpos Hname Htype Hmiss w1.
  destruct (installed_world e h q w ans t Hsc H Hs Hc Hn Ht) as [lg Hw1].
  subst w1. rewrite Hw1, Hname, Htype.
  assert (G : (get_record h' q'
                 (World (inserted (table w) (PStr h') (PStr q') (result_of ans) t 0) lg [])).1
              = Returned (Some (Rec (RRTable.record_number (table w)) (PStr h') (PStr q')
                                    (result_of ans) (Some t) 0))).
  { rewrite get_record_run in *. rewrite Hsc in Hmiss.
    cbn [fst snd sched table tl hd] in *. change (decayed 0 ?x) with x in *.
    injection Hmiss as Hmiss. f_equal.
    unfold spec_lookup in *. cbn [inserted RRTable.records].
    rewrite find_app_none by now apply find_nothing.
    simpl. unfold key_matches, valid_for_lookup. simpl.
    rewrite !String.eqb_refl. simpl.
    now destruct (Z.ltb_spec 0 t); [|lia]. }
  split; [exact G|].
  rewrite (handle_hit _ _ _ _ _ _ _ _ G), display_table_run. reflexivity.
Qed.

(** X14: when the reply names another host or type than the question, the
    question itself is not cached: after the attempt the same lookup
    misses again. *)
Theorem reply_for_other_key_leaves_question_unanswered e h q w ans t :
  sched w = [] →
  (get_record h q w).1 = Returned None →
  send_outcome e = Returned tt →
  correlated json_loads e ans →
  py_eq_str (result_of ans) NOT_FOUND = false →
  ttl_of int_of_str ans = Returned t →
  py_eq_str (name_of ans h) h && py_eq_str (type_of ans q) q = false →
  (get_record h q (attempt e h q w).2).1 = Returned None.
Proof.
  intros Hsc H Hs Hc Hn Ht Hkey.
  destruct (installed_world e h q w ans t Hsc H Hs Hc Hn Ht) as [lg ->].
  rewrite get_record_run in *. rewrite Hsc in H.
  cbn [fst snd sched table tl hd] in *. change (decayed 0 ?x) with x in *.
  injection H as H. f_equal.
  unfold spec_lookup in *. cbn [inserted RRTable.records].
  rewrite find_app_none by now apply find_nothing.
  simpl. unfold key_matches at 1. simpl. now rewrite Hkey.
Qed.
End ClientMore.

Lemma cache_hit_stays_local_witness :
  table (handle_request canned_dumps broken_loads no_int env_timeout
           "a.com" "A" sample_world).2 = table sample_world.
Proof.
  apply (proj2 (cache_hit_stays_local canned_dumps broken_loads no_int
                  env_timeout "a.com" "A" sample_world (rec_dynamic 0 1) eq_refl)).
  reflexivity.
Defined.

Lemma one_query_per_miss_witness :
  Z.land (time_ms env_timeout) 0xFFFFFFFF = time_ms env_timeout mod 2 ^ 32.
Proof.
  apply (proj1 (proj2 (one_query_per_miss canned_dumps broken_loads no_int
                         env_timeout "c.com" "A" sample_world eq_refl eq_refl))).
Defined.

Lemma attempt_keeps_numbering_witness :
  dense (table (handle_request canned_dumps
                  (canned_loads (PDict (reply_with sample_tx answer_e))) no_int
                  env_reply "e.com" "A" sample_world).2).
Proof.
  apply attempt_keeps_numbering. exact sample_table_dense.
Defined.

Lemma attempt_keeps_dynamic_witness :
  Forall dynamic
    (RRTable.records
       (table (handle_request canned_dumps
                 (canned_loads (PDict (reply_with sample_tx answer_e))) no_int
                 env_reply "e.com" "A" (World RRTable.init [] [])).2)).
Proof.
  apply attempt_keeps_dynamic. constructor.
Defined.

Lemma attempt_appends_at_most_one_witness :
  table (handle_request canned_dumps broken_loads no_int env_reply
           "e.com" "A" sample_world).2 = table sample_world
  ∨ ∃ (nm ty res : pyval) (t : Z),
      table (handle_request canned_dumps broken_loads no_int env_reply
               "e.com" "A" sample_world).2
      = inserted (table sample_world) nm ty res t 0.
Proof.
  apply attempt_appends_at_most_one. reflexivity.
Defined.

Lemma raising_attempt_changes_nothing_witness :
  table (handle_request canned_dumps broken_loads no_int env_reset
           "e.com" "A" sample_world).2 = table sample_world.
Proof.
  apply (proj2 (proj2 (raising_attempt_changes_nothing canned_dumps broken_loads no_int
                         env_reset "e.com" "A" sample_world SystemExit eq_refl))).
  reflexivity.
Defined.

Lemma reply_key_is_cached_witness :
  (get_record "cdn.example" "A"
     (handle_request canned_dumps
        (canned_loads (PDict (reply_with sample_tx answer_alias))) no_int
        env_reply "e.com" "A" sample_world).2).1
  = Returned (Some (Rec 4 (PStr "cdn.example") (PStr "A") (PStr "7.7.7.7") (Some 30) 0)).
Proof.
  apply (proj1 (reply_key_is_cached canned_dumps
                  (canned_loads (PDict (reply_with sample_tx answer_alias))) no_int
                  env_reply env_timeout "e.com" "A" "cdn.example" "A"
                  sample_world answer_alias 30
                  eq_refl eq_refl eq_refl (sample_reply_correlated answer_alias)
                  eq_refl eq_refl ltac:(lia) eq_refl eq_refl eq_refl)).
Defined.

Lemma reply_for_other_key_leaves_question_unanswered_witness :
  (get_record "e.com" "A"
     (handle_request canned_dumps
        (canned_loads (PDict (reply_with sample_tx answer_alias))) no_int
        env_reply "e.com" "A" sample_world).2).1 = Returned None.
Proof.
  apply (reply_for_other_key_leaves_question_unanswered canned_dumps
           (canned_loads (PDict (reply_with sample_tx answer_alias))) no_int
           env_reply "e.com" "A" sample_world answer_alias 30
           eq_refl eq_refl eq_refl (sample_reply_correlated answer_alias)
           eq_refl eq_refl eq_refl).
Defined.

(** ** The session loop *)

Section MainProofs.
Variable json_dumps : pyval → string.
Variable json_loads : string → outcome pyval.
Variable int_of_str : string → outcome Z.
Variable str_strip : string → string.
Variable str_lower : string → string.
Variable str_upper : string → string.
Variable str_split : string → list string.

Abbreviation session :=
  (main json_dumps json_loads int_of_str str_strip str_lower str_upper str_split).
Abbreviation loop :=
  (main_loop json_dumps json_loads int_of_str str_strip str_lower str_upper str_split).
Abbreviation round :=
  (main_turn json_dumps json_loads int_of_str str_strip str_lower str_upper str_split).
Abbreviation ask := (main_query json_dumps json_loads int_of_str).
Abbreviation try_once := (handle_request json_dumps json_loads int_of_str).

Lemma said_good (line : string) (w : world) :
  Forall (asks_registered_type json_dumps) (log w) →
  Forall (asks_registered_type json_dumps) (log (print line w).2).
Proof.
  intros H. cbn. apply Forall_app. split; [exact H|]. now repeat constructor.
Qed.

Lemma ask_good e h q w :
  Forall (asks_registered_type json_dumps) (log w) →
  Forall (asks_registered_type json_dumps) (log (ask e h q w).2).
Proof.
  intros H. unfold main_query.
  destruct (DNSTypes.get_type_code q) as [c|] eqn:Hq; [|now apply said_good].
  assert (G : Forall (asks_registered_type json_dumps) (log (try_once e h q w).2)).
  { destruct (attempt_log json_dumps json_loads int_of_str e h q w) as (extra & -> & Hx).
    apply Forall_app. split; [exact H|].
    eapply Forall_impl; [exact Hx|]. intros ev [Hev | ->].
    - destruct ev; try exact I. discriminate.
    - split; [reflexivity|]. eexists _, h, q. split; [reflexivity|].
      split; [now rewrite Hq|].
      change 0xFFFFFFFF with (Z.ones 32). rewrite Z.land_ones by lia.
      apply Z.mod_pos_bound. lia. }
  now destruct (try_once e h q w) as [[u|ex] w'].
Qed.

Lemma round_good t w :
  Forall (asks_registered_type json_dumps) (log w) →
  Forall (asks_registered_type json_dumps) (log (round t w).2).
Proof.
  intros H. unfold main_turn. apply (said_good PROMPT) in H.
  destruct (typed t) as [line|]; [|exact H].
  destruct (String.eqb _ "quit"); [exact H|].
  destruct (str_split (str_strip line)) as [|h [|q [|x l]]].
  - now apply said_good.
  - now apply ask_good.
  - now apply ask_good.
  - now apply said_good.
Qed.

Lemma loop_good turns w :
  Forall (asks_registered_type json_dumps) (log w) →
  Forall (asks_registered_type json_dumps) (log (loop turns w).2).
Proof.
  revert w. induction turns as [|t turns IH]; intros w H; simpl.
  - now apply said_good.
  - pose proof (round_good t w H) as G.
    destruct (round t w) as [[stop|] w']; [exact G | now apply IH].
Qed.

(** X15: whatever is typed and whatever the network does, every packet a
    session sends goes to the local DNS server and asks for one of the
    registered types (A, AAAA, CNAME or NS), with an id of 32 bits. *)
Theorem session_sends_registered_types (sc : list nat) (turns : list turn) :
  Forall (asks_registered_type json_dumps) (log (cache (session sc turns).2)).
Proof.
  unfold main.
  pose proof (loop_good turns (World RRTable.init [] sc) (Forall_nil_2 _)) as G.
  destruct (loop turns (World RRTable.init [] sc)) as [[|ex|] w]; try exact G.
  destruct ex; try exact G. now apply said_good.
Qed.

Lemma loop_stops_at_quit pre line e post w :
  str_lower (str_strip line) = "quit"%string →
  loop (pre ++ Turn (Typed line) e :: post) w = loop (pre ++ [Turn (Typed line) e]) w.
Proof.
  intros Hq. revert w. induction pre as [|t pre IH]; intros w; simpl.
  - unfold main_turn. cbn [typed]. now rewrite Hq.
  - destruct (round t w) as [[stop|] w']; [reflexivity | apply IH].
Qed.

(** X16: a line that strips and lowers to "quit" ends the session: what
    is typed after it is never read, so the session gives the same result
    without it and never runs out of input. *)
Theorem session_ends_at_quit sc pre line e post :
  str_lower (str_strip line) = "quit"%string →
  main json_dumps json_loads int_of_str str_strip str_lower str_upper str_split
       sc (pre ++ Turn (Typed line) e :: post)
  = main json_dumps json_loads int_of_str str_strip str_lower str_upper str_split
         sc (pre ++ [Turn (Typed line) e])
  ∧ (main json_dumps json_loads int_of_str str_strip str_lower str_upper str_split
          sc (pre ++ Turn (Typed line) e :: post)).1 ≠ Exit_EOFError.
Proof.
  intros Hq. unfold main. rewrite (loop_stops_at_quit pre line e post _ Hq).
  split; [reflexivity|].
  assert (G : ∀ w, (loop (pre ++ [Turn (Typed line) e]) w).1 ≠ EndOfInput).
  { induction pre as [|t pre IH]; intros w; simpl.
    - unfold main_turn. cbn [typed]. now rewrite Hq.
    - destruct (round t w) as [[stop|] w'] eqn:E; [|apply IH].
      cbn. intros ->. unfold main_turn in E.
      destruct (typed t); [|discriminate].
      destruct (String.eqb _ "quit"); [discriminate|].
      assert (A : ∀ e0 h0 q0 w0, (ask e0 h0 q0 w0).1 ≠ Some EndOfInput).
      { intros e0 h0 q0 w0. unfold main_query.
        destruct (DNSTypes.get_type_code q0); [|discriminate].
        now destruct (try_once e0 h0 q0 w0) as [[u|ex] w1]. }
      destruct (str_split _) as [|h [|q [|x l]]]; try discriminate;
        eapply A; rewrite E; reflexivity. }
  specialize (G (World RRTable.init [] sc)).
  destruct (loop (pre ++ [Turn (Typed line) e]) (World RRTable.init [] sc)) as [[|ex|] w];
    try discriminate; [destruct ex; discriminate | now contradict G].
Qed.

(** X17: however a session ends, its socket has been closed, and it was
    never bound; and the session returns normally only when the loop was
    left by "quit" or by a KeyboardInterrupt. *)
Theorem session_closes_socket (sc : list nat) (turns : list turn) :
  udp (session sc turns).2 = UDPConnection.Make 5 false true
  ∧ ((session sc turns).1 = Exit_normally ↔
     (loop turns (World RRTable.init [] sc)).1 = Break
     ∨ (loop turns (World RRTable.init [] sc)).1 = Escaped KeyboardInterrupt).
Proof.
  unfold main.
  destruct (loop turns (World RRTable.init [] sc)) as [[|ex|] w].
  - split; [reflexivity|]. split; auto.
  - destruct ex; (split; [reflexivity|]); split; auto; try discriminate;
      intros [H | H]; discriminate.
  - split; [reflexivity|]. split; [discriminate|]. intros [H | H]; discriminate.
Qed.

(** X18: a line that is not "quit" and has no word, or more than two
    words, or two of which the second, upper-cased, is not a registered
    type, is answered with a message only: after the prompt one line is
    printed, nothing is sent, the cache is not touched, and the loop goes
    on. *)
Theorem rejected_line_only_prints (line : string) (e : env) (w : world) :
  str_lower (str_strip line) ≠ "quit"%string →
  (length (str_split (str_strip line)) ≠ 1 ∧ length (str_split (str_strip line)) ≠ 2)%nat
  ∨ (∃ h q, str_split (str_strip line) = [h; q]
            ∧ DNSTypes.get_type_code (str_upper q) = None) →
  ∃ message : string,
    round (Turn (Typed line) e) w
    = (None, World (table w) (log w ++ [Printed PROMPT; Printed message]) (sched w)).
Proof.
  intros Hq Hbad. unfold main_turn. cbn [typed net].
  destruct (String.eqb_spec (str_lower (str_strip line)) "quit"); [contradiction|].
  destruct Hbad as [[H1 H2] | (h & q & -> & Hty)].
  - destruct (str_split (str_strip line)) as [|h [|q [|x l]]];
      try (now contradict H1); try (now contradict H2);
      eexists; cbn; now rewrite <- app_assoc.
  - unfold main_query. rewrite Hty. eexists. cbn. now rewrite <- app_assoc.
Qed.

Lemma get_record_ignores_log (h q : string) (w : world) (lg : list event) :
  (get_record h q (World (table w) lg (sched w))).1 = (get_record h q w).1.
Proof. now rewrite !get_record_run. Qed.

Lemma handle_dismissed e h q w line :
  (get_record h q w).1 = Returned None →
  send_outcome e = Returned tt →
  dismissed json_loads e line →
  try_once e h q w
  = (Returned tt,
     said line (queried (json_dumps (query_packet (Z.land (time_ms e) 0xFFFFFFFF) h q)) w)).
Proof.
  intros H Hs D.
  destruct D as [ex Hr Hx | data addr v Hr Hd Hv
                | data addr d Hr Hd Hi | data addr d Hr Hd Hf].
  - now rewrite (handle_recv_raises _ _ _ _ _ _ _ _ H Hs Hr), Hx.
  - now apply handle_not_dict with data addr v.
  - apply handle_mismatch with data addr d; auto.
  - apply handle_mismatch with data addr d; auto.
Qed.

(** X19: a query that gets no usable reply does not end the session.
    When a one-word line asks for a host that is not cached and the
    receive raises an [Exception] or the reply is mismatched, the round
    prints the prompt, sends the query for type A, prints the one-line
    message, and the loop reads the next line with the cache as the lookup
    found it. *)
Theorem session_survives_dismissal line e host message rest w :
  str_lower (str_strip line) ≠ "quit"%string →
  str_split (str_strip line) = [host] →
  (get_record host "A" w).1 = Returned None →
  send_outcome e = Returned tt →
  dismissed json_loads e message →
  loop (Turn (Typed line) e :: rest) w
  = loop rest
      (World (decayed (hd O (sched w)) (table w))
             (log w ++ [Printed PROMPT;
                        SentTo (json_dumps (query_packet
                                  (Z.land (time_ms e) 0xFFFFFFFF) host "A"))
                               LOCAL_DNS_ADDR;
                        Printed message])
             (tl (sched w))).
Proof.
  intros Hq Hsplit Hmiss Hs D. cbn [main_loop]. unfold main_turn. cbn [typed net].
  destruct (String.eqb_spec (str_lower (str_strip line)) "quit"); [contradiction|].
  rewrite Hsplit. unfold main_query.
  change (DNSTypes.get_type_code "A") with (Some 8).
  rewrite (handle_dismissed e host "A" _ message); [| |exact Hs|exact D].
  - unfold said, queried, print, emit. cbn [snd table log sched].
    rewrite <- !app_assoc. reflexivity.
  - cbn. now rewrite get_record_ignores_log.
Qed.

Lemma decayed_init (k : nat) : decayed k RRTable.init = RRTable.init.
Proof. induction k as [|k IH]; [reflexivity|]. unfold decayed in *. simpl. now rewrite IH. Qed.

(** X20: a reply that does not decode ends the session.  When the first
    line is one word (not "quit"), the query is sent and the reply makes
    [json.loads] raise, the exception leaves [handle_request] and [main]:
    nothing more is read or printed, the cache is empty, and the socket is
    closed on the way out. *)
Theorem undecodable_reply_ends_session sc line e host data addr ex rest :
  str_lower (str_strip line) ≠ "quit"%string →
  str_split (str_strip line) = [host] →
  send_outcome e = Returned tt →
  recv_outcome e = Returned (data, addr) →
  json_loads data = Raised ex →
  ex ≠ KeyboardInterrupt →
  session sc (Turn (Typed line) e :: rest)
  = (Exit_raising ex,
     Process (World RRTable.init
                [Printed PROMPT;
                 SentTo (json_dumps (query_packet
                           (Z.land (time_ms e) 0xFFFFFFFF) host "A"))
                        LOCAL_DNS_ADDR]
                (tl sc))
             (UDPConnection.Make 5 false true)).
Proof.
  intros Hq Hsplit Hs Hr Hd Hex. unfold main. cbn [main_loop]. unfold main_turn.
  cbn [typed net].
  destruct (String.eqb_spec (str_lower (str_strip line)) "quit"); [contradiction|].
  rewrite Hsplit. unfold main_query.
  change (DNSTypes.get_type_code "A") with (Some 8).
  rewrite (handle_decode_raises _ _ _ _ _ _ _ data addr ex); [| |exact Hs|exact Hr|exact Hd].
  - unfold queried, print, emit. cbn [snd fst table log sched hd tl].
    rewrite decayed_init. destruct ex; try reflexivity; congruence.
  - rewrite get_record_run. cbn. now rewrite decayed_init.
Qed.
End MainProofs.

(** ** The connection *)

(** X22: [bind] binds at most once.  On a connection that is not bound, a
    bind that the socket accepts marks it bound, and a bind that the
    socket refuses raises and leaves it unbound; on a bound connection
    every further bind, to whatever address, returns after one printed
    line and leaves the connection as it is. *)
Theorem bind_binds_once (e1 e2 : bind_env) (a1 a2 : string * Z) (p : process) :
  UDPConnection.is_bound (udp p) = false →
  (∀ ex, bind_outcome e1 = Raised ex → bind e1 a1 p = (Raised ex, p))
  ∧ (bind_outcome e1 = Returned tt →
     let p1 := (bind e1 a1 p).2 in
     (bind e1 a1 p).1 = Returned tt
     ∧ UDPConnection.is_bound (udp p1) = true
     ∧ cache p1 = cache p
     ∧ bind e2 a2 p1
       = (Returned tt,
          Process (said ("Socket is already bound to address: " ++ sockname_text e2)
                        (cache p1))
                  (udp p1))).
Proof.
  intros Hu. unfold bind, mbind, P_bind, get_udp, from_env. rewrite Hu. split.
  - intros ex ->. reflexivity.
  - intros ->. cbn. repeat split.
Qed.

Lemma bind_binds_once_witness :
  (bind (BindEnv (Returned tt) "('0.0.0.0', 21000)") ("0.0.0.0"%string, 21000)
     (Process sample_world (UDPConnection.init 1))).1 = Returned tt.
Proof.
  apply (proj2 (bind_binds_once (BindEnv (Returned tt) "('0.0.0.0', 21000)")
                  (BindEnv (Returned tt) "('0.0.0.0', 21000)")
                  ("0.0.0.0"%string, 21000) ("0.0.0.0"%string, 21001)
                  (Process sample_world (UDPConnection.init 1)) eq_refl) eq_refl).
Defined.

(** ** The session on sample input *)

Lemma session_ends_at_quit_witness :
  sample_main [] ([Turn (Typed "e.com") env_reply]
                    ++ Turn (Typed "QUIT") env_reply :: [Turn (Typed "zzz") env_timeout])
  = sample_main [] ([Turn (Typed "e.com") env_reply] ++ [Turn (Typed "QUIT") env_reply]).
Proof.
  apply (proj1 (session_ends_at_quit canned_dumps
                  (canned_loads (PDict (reply_with sample_tx answer_e))) no_int
                  no_strip ascii_lower ascii_upper ascii_words
                  [] [Turn (Typed "e.com") env_reply] "QUIT" env_reply
                  [Turn (Typed "zzz") env_timeout] eq_refl)).
Defined.

Lemma session_closes_socket_witness :
  udp (sample_main [2%nat] [Turn (Typed "e.com mx") env_reply; Turn CtrlC env_reply]).2
  = UDPConnection.Make 5 false true.
Proof.
  apply (proj1 (session_closes_socket canned_dumps
                  (canned_loads (PDict (reply_with sample_tx answer_e))) no_int
                  no_strip ascii_lower ascii_upper ascii_words
                  [2%nat] [Turn (Typed "e.com mx") env_reply; Turn CtrlC env_reply])).
Defined.

Lemma rejected_line_only_prints_witness :
  ∃ message : string,
    main_turn canned_dumps (canned_loads (PDict (reply_with sample_tx answer_e))) no_int
      no_strip ascii_lower ascii_upper ascii_words
      (Turn (Typed "e.com mx") env_reply) sample_world
    = (None,
       World (table sample_world)
             (log sample_world ++ [Printed PROMPT; Printed message])
             (sched sample_world)).
Proof.
  apply (rejected_line_only_prints canned_dumps
           (canned_loads (PDict (reply_with sample_tx answer_e))) no_int
           no_strip ascii_lower ascii_upper ascii_words
           "e.com mx" env_reply sample_world).
  - discriminate.
  - right. exists "e.com"%string, "mx"%string. split; reflexivity.
Defined.

Lemma session_survives_dismissal_witness :
  main_loop canned_dumps broken_loads no_int no_strip ascii_lower ascii_upper ascii_words
    [Turn (Typed "c.com") env_timeout; Turn (Typed "quit") env_timeout] sample_world
  = main_loop canned_dumps broken_loads no_int no_strip ascii_lower ascii_upper ascii_words
      [Turn (Typed "quit") env_timeout]
      (World (table sample_world)
             [Printed PROMPT;
              SentTo "query" LOCAL_DNS_ADDR;
              Printed "No response from Local DNS (timeout or socket error)"]
             []).
Proof.
  apply (session_survives_dismissal canned_dumps broken_loads no_int
           no_strip ascii_lower ascii_upper ascii_words
           "c.com" env_timeout "c.com"
           "No response from Local DNS (timeout or socket error)"
           [Turn (Typed "quit") env_timeout] sample_world).
  - discriminate.
  - reflexivity.
  - reflexivity.
  - reflexivity.
  - apply (No_response _ _ SocketTimeout); reflexivity.
Defined.

Lemma undecodable_reply_ends_session_witness :
  main canned_dumps broken_loads no_int no_strip ascii_lower ascii_upper ascii_words
    [] [Turn (Typed "e.com") env_reply; Turn (Typed "quit") env_reply]
  = (Exit_raising JSONDecodeError,
     Process (World RRTable.init [Printed PROMPT; SentTo "query" LOCAL_DNS_ADDR] [])
             (UDPConnection.Make 5 false true)).
Proof.
  apply (undecodable_reply_ends_session canned_dumps broken_loads no_int
           no_strip ascii_lower ascii_upper ascii_words
           [] "e.com" env_reply "e.com" "reply" LOCAL_DNS_ADDR JSONDecodeError
           [Turn (Typed "quit") env_reply]).
  - discriminate.
  - reflexivity.
  - reflexivity.
  - reflexivity.
  - reflexivity.
  - discriminate.
Defined.
